(** * mindl command line driver: a shallow embedding of [cli.go]

  The development follows the source file top-down:

  - [GoStrings]: the functions of Go's [strings] and [path/filepath]
    packages that [cli.go] calls, on byte strings;
  - [OptionsFlag]: the [-o key=value] flag value and its [Set] method;
  - [normalizeDir]: the download-directory normalisation done by [main];
  - [Proc]: the process monad (world, trace, exit) in which [main] and
    [startDownloading] are written;
  - [Cli]: [main] and [startDownloading] over the plugin manager and
    download manager interfaces they call;
  - [PluginManager], [DownloadManager]: the collaborators that are not
    part of [cli.go], modelled from the specification;
  - the theorems. *)

From Stdlib Require Import ZArith Ascii String Bool.
From stdpp Require Import base option list gmap strings.

Local Open Scope string_scope.
Local Open Scope list_scope.

(** ** Go's [strings] and [path/filepath] on byte strings

  A Go [string] is a sequence of bytes; Rocq's [string] is a sequence of
  [ascii], that is of 8-bit bytes, so the two coincide. A missing index
  (Go's [-1]) is [None]. *)
Module GoStrings.

(** [s[:i]] and [s[i:]] for [i <= len(s)]. *)
Definition slice_to (i : nat) (s : string) : string := substring 0 i s.
Definition slice_from (i : nat) (s : string) : string :=
  substring i (String.length s - i) s.

(** [strings.HasPrefix]. *)
Fixpoint HasPrefix (s pre : string) : bool :=
  match pre, s with
  | EmptyString, _ => true
  | String _ _, EmptyString => false
  | String a pre', String b s' => Ascii.eqb a b && HasPrefix s' pre'
  end.

(** [strings.Index]: the position of the first occurrence of [substr]. *)
Fixpoint Index (s substr : string) : option nat :=
  if HasPrefix s substr then Some 0
  else match s with
       | EmptyString => None
       | String _ s' => S <$> Index s' substr
       end.

(** The loop of [strings.genSplit] (with [sepSave = 0]): [fuel] is the
    value of [n - 1 - i], the number of cuts still allowed. *)
Fixpoint genSplit_loop (fuel : nat) (s sep : string) : list string :=
  match fuel with
  | O => [s]
  | S fuel' =>
      match Index s sep with
      | None => [s]
      | Some m =>
          slice_to m s
            :: genSplit_loop fuel' (slice_from (m + String.length sep) s) sep
      end
  end.

(** [strings.SplitN(s, sep, n)] for a non-empty [sep] and [n >= 0]:
    at most [n] pieces, the last one being the unsplit remainder. *)
Definition SplitN (s sep : string) (n : nat) : list string :=
  match n with
  | O => []
  | S _ =>
      let n' := Nat.min n (String.length s + 1) in
      genSplit_loop (n' - 1) s sep
  end.

(** [strings.HasSuffix] and [strings.TrimSuffix]. *)
Definition HasSuffix (s suffix : string) : bool :=
  (String.length suffix <=? String.length s)%nat
  && String.eqb (slice_from (String.length s - String.length suffix) s) suffix.

Definition TrimSuffix (s suffix : string) : string :=
  if HasSuffix s suffix
  then slice_to (String.length s - String.length suffix) s
  else s.

(** [strings.ReplaceAll(s, old, new)] for one-byte [old] and [new]. *)
Fixpoint ReplaceAllByte (s : string) (old new : ascii) : string :=
  match s with
  | EmptyString => EmptyString
  | String c s' =>
      String (if Ascii.eqb c old then new else c) (ReplaceAllByte s' old new)
  end.

(** [filepath.FromSlash] on a system whose separator is [Separator]. *)
Definition FromSlash (Separator : ascii) (path : string) : string :=
  if Ascii.eqb Separator "/" then path
  else ReplaceAllByte path "/" Separator.

(** The byte [c] occurs in [s]. *)
Fixpoint ContainsByte (s : string) (c : ascii) : bool :=
  match s with
  | EmptyString => false
  | String b s' => Ascii.eqb b c || ContainsByte s' c
  end.

End GoStrings.

(** ** The [-o] flag: [OptionsFlag] *)

(** Go's [error] values. [ErrInvalidOptionFormat] is declared in [cli.go].
  Modelled from the spec: the errors of the missing plugin manager, which
  are the configuration error naming a missing key (spec section 4.2), the
  "no handler" error and the input error of a choice out of range (spec
  section 4.1); [ErrOther] is any other error, such as one returned by
  [Download]. *)
Inductive error : Type :=
| ErrInvalidOptionFormat
| ErrMissingOption (key : string)
| ErrNoHandler
| ErrInvalidChoice
| ErrOther (msg : string).

(** [type OptionsFlag map[string]string]: a Go map value is either [nil]
  or an allocated table; reading a [nil] map finds nothing. *)
Module OptionsFlag.

Definition t : Type := option (gmap string string).

Definition table (opt : t) : gmap string string := default ∅ opt.

(** [func (opt *OptionsFlag) Get() interface{}] *)
Definition Get (opt : t) : t := opt.

(** [func (opt *OptionsFlag) Set(v string) error]: the returned error
    ([None] for [nil]) and the flag value afterwards. *)
Definition Set_ (opt : t) (v : string) : option error * t :=
  let split := GoStrings.SplitN v "=" 2 in
  if (length split <? 2)%nat then (Some ErrInvalidOptionFormat, opt)
  else
    match split with
    | k :: val :: _ => (None, Some (<[k := val]> (table opt)))
    | _ => (Some ErrInvalidOptionFormat, opt)
    end.

(** [func (opt *OptionsFlag) Type() string] *)
Definition Type_ (opt : t) : string := "key=value".

End OptionsFlag.

(** ** The download directory *)

Section DownloadDirectory.

(** [os.PathSeparator]: ['/'] or ['\\'], fixed by the target system. *)
Variable PathSeparator : ascii.

Definition sepString : string := String PathSeparator EmptyString.

(** [strings.TrimSuffix(filepath.FromSlash(dldir), string(os.PathSeparator))
     + string(os.PathSeparator)] *)
Definition normalizeDir (dldir : string) : string :=
  GoStrings.TrimSuffix (GoStrings.FromSlash PathSeparator dldir) sepString
    +:+ sepString.

End DownloadDirectory.

(** ** The process: world, trace of external calls, exit

  [cli.go] is sequential code over collaborators it does not define: the
  logger, the plugin manager, the download manager and the terminal. A run
  of the process is described by the state of that outside world and by the
  trace of the calls [cli.go] makes to it, in order, each with its result.
  A computation either returns or ends the process with an exit status. *)

Inductive Level : Type := LInfo | LError | LFatal.

(** The arguments of a log call, left unformatted. *)
Inductive Arg : Type :=
| AStr (s : string)
| AInt (n : Z)
| AErr (e : error)
| AVal (r : string).

(** What [dm.Download] does to its caller: it returns the downloads, returns
  an error, or panics with a value. *)
Inductive DownloadResult : Type :=
| DlOk (dls : list string)
| DlErr (e : error)
| DlPanic (r : string).

Inductive Event (Plugin : Type) : Type :=
| Println (s : string)
| Usage
| Log (lvl : Level) (format : string) (args : list Arg)
| RuntimePanic (msg : string)
| SetOptionsCall (h : list Plugin) (err : option error)
| SelectPluginCall (h : list Plugin) (res : Plugin + error)
| ReporterStart
| DownloadCall (url : string) (plugin : Plugin) (res : DownloadResult)
| ReporterStop
| LineRelease.

Arguments Println {Plugin} s.
Arguments Usage {Plugin}.
Arguments Log {Plugin} lvl format args.
Arguments RuntimePanic {Plugin} msg.
Arguments SetOptionsCall {Plugin} h err.
Arguments SelectPluginCall {Plugin} h res.
Arguments ReporterStart {Plugin}.
Arguments DownloadCall {Plugin} url plugin res.
Arguments ReporterStop {Plugin}.
Arguments LineRelease {Plugin}.

Inductive Res (A : Type) : Type :=
| Ret (a : A)
| Exit (code : Z).

Arguments Ret {A} a.
Arguments Exit {A} code.

Module Proc.
Section Proc.

Context {Plugin W : Type}.

Record State : Type := mkState { world : W; trace : list (Event Plugin) }.

Definition M (A : Type) : Type := State -> Res A * State.

Definition ret {A} (a : A) : M A := fun s => (Ret a, s).

Definition bind {A B} (m : M A) (k : A -> M B) : M B :=
  fun s =>
    match m s with
    | (Ret a, s') => k a s'
    | (Exit code, s') => (Exit code, s')
    end.

(** Record one call in the trace. *)
Definition emit (e : Event Plugin) : M unit :=
  fun s => (Ret tt, mkState (world s) (trace s ++ [e])).

(** Run a collaborator on the world. *)
Definition call {A} (f : W -> A * W) : M A :=
  fun s => let '(a, w) := f (world s) in (Ret a, mkState w (trace s)).

(** [os.Exit(code)]. *)
Definition exit {A} (code : Z) : M A := fun s => (Exit code, s).

(** [log.Infof], [log.Errorf], [log.Error]: the message is logged and the
  call returns. *)
Definition logf (lvl : Level) (format : string) (args : list Arg) : M unit :=
  emit (Log lvl format args).

(** Modelled from the spec: package [logger] is not among the sources. The
  spec describes the path on which [main] calls [log.Fatal] after a failed
  negotiation as one that "fails fatally for the whole run"; [Fatal] and
  [Fatalf] therefore log the message at the fatal level and end the
  process with status 1, as the [Fatal] functions of Go loggers do. *)
Definition fatalf {A} (format : string) (args : list Arg) : M A :=
  bind (emit (Log LFatal format args)) (fun _ => exit 1).

(** An index expression [xs[i]]: out of range it panics, and a panic that
  nothing recovers ends the process with status 2. *)
Definition index {A} (xs : list A) (i : nat) : M A :=
  match xs !! i with
  | Some x => ret x
  | None =>
      bind (emit (RuntimePanic "index out of range")) (fun _ => exit 2)
  end.

(** [for i, x := range xs { body }], from index [i] on. A body that ends
  the process ends the loop with it. *)
Fixpoint forRange {A} (body : nat -> A -> M unit) (i : nat) (xs : list A)
  : M unit :=
  match xs with
  | [] => ret tt
  | x :: xs' => bind (body i x) (fun _ => forRange body (S i) xs')
  end.

End Proc.

Arguments State : clear implicits.
Arguments M : clear implicits.

End Proc.

Notation "x <- c1 ;; c2" := (Proc.bind c1 (fun x => c2))
  (at level 100, c1 at next level, right associativity).
Notation "c1 ;; c2" := (Proc.bind c1 (fun _ => c2))
  (at level 100, right associativity).

(** ** [cli.go]: the flags, [main] and [startDownloading] *)

(** The package-level variables that [flag.Parse] fills in, and
  [flag.Args()]. *)
Record Flags : Type := mkFlags {
  options : OptionsFlag.t;
  workers : Z;
  verbose : bool;
  defaults : bool;
  noprompt : bool;
  zipit : bool;
  printVersion : bool;
  override : bool;
  dldir : string;
  args : list string
}.

(** The collaborators of [cli.go]: the plugin registry [Plugins], the
  methods of [PluginManager], [pluginName], and
  [NewDownloadManager(plugin, dldir).Download]. *)
Record Env (Plugin W : Type) : Type := mkEnv {
  Plugins : list Plugin;
  FindHandlers : list Plugin -> list string -> list (list Plugin);
  SetOptions :
    list Plugin -> list Plugin -> gmap string string -> bool -> bool ->
    W -> option error * W;
  SelectPlugin : list Plugin -> list Plugin -> W -> (Plugin + error) * W;
  pluginName : Plugin -> string;
  Download :
    Plugin -> string -> string -> Z -> bool -> bool -> W -> DownloadResult * W
}.

Arguments Plugins {Plugin W} e.
Arguments FindHandlers {Plugin W} e pm urls.
Arguments SetOptions {Plugin W} e pm h opts useDefaults noPrompt w.
Arguments SelectPlugin {Plugin W} e pm h w.
Arguments pluginName {Plugin W} e p.
Arguments Download {Plugin W} e plugin dldir url workers zip override w.

Section Cli.

Context {Plugin W : Type}.
Variable E : Env Plugin W.
Variable PathSeparator : ascii.
Variable version : string.

Abbreviation M := (Proc.M Plugin W).

(** The deferred calls of [startDownloading], in the order in which they
  run (the reverse of their registration): stop the ticker and signal
  [done]; release the reserved line; recover, and if the function was
  panicking log the value with [log.Fatalf]. *)
Definition startDownloading_deferred (panicking : option string) : M unit :=
  Proc.emit ReporterStop ;;
  Proc.emit LineRelease ;;
  match panicking with
  | Some r => Proc.fatalf "Panicked: %v" [AVal r]
  | None => Proc.ret tt
  end.

(** [func startDownloading(url string, plugin plugins.Plugin)]: the ticker
  and the goroutine that refreshes the reserved line are started, [Download]
  is called, its outcome is logged, and the deferred calls run. *)
Definition startDownloading (f : Flags) (dir url : string) (plugin : Plugin)
  : M unit :=
  Proc.emit ReporterStart ;;
  res <- Proc.call (Download E plugin dir url (workers f) (zipit f) (override f)) ;;
  Proc.emit (DownloadCall url plugin res) ;;
  match res with
  | DlPanic r => startDownloading_deferred (Some r)
  | DlErr err =>
      Proc.logf LError "%v" [AErr err] ;;
      startDownloading_deferred None
  | DlOk dls =>
      Proc.logf LInfo "Done! Got a total of %d downloads."
        [AInt (Z.of_nat (length dls))] ;;
      startDownloading_deferred None
  end.

(** The double quote of the format string of [main]'s second loop. *)
Definition quote : string := String (ascii_of_nat 34) EmptyString.

(** The body of the first loop of [main], for the index [i] and the
  candidate set [h]. *)
Definition main_negotiate (f : Flags) (pm : list Plugin) (urls : list string)
  (i : nat) (h : list Plugin) : M unit :=
  (if (length h =? 0)%nat
   then u <- Proc.index urls i ;;
        Proc.logf LError "Found no handler for: %s" [AStr u]
   else Proc.ret tt) ;;
  err <- Proc.call
           (SetOptions E pm h (OptionsFlag.table (options f))
              (defaults f) (noprompt f)) ;;
  Proc.emit (SetOptionsCall h err) ;;
  match err with
  | Some e => Proc.fatalf "%v" [AErr e]
  | None => Proc.ret tt
  end.

(** The body of the second loop of [main]. *)
Definition main_download (f : Flags) (pm : list Plugin) (dir : string)
  (urls : list string) (i : nat) (h : list Plugin) : M unit :=
  res <- Proc.call (SelectPlugin E pm h) ;;
  Proc.emit (SelectPluginCall h res) ;;
  match res with
  | inr err => Proc.fatalf "%v" [AErr err]
  | inl p =>
      (if (1 <? length urls)%nat
       then u <- Proc.index urls i ;;
            Proc.logf LInfo "Processing URL: %s" [AStr u]
       else Proc.ret tt) ;;
      Proc.logf LInfo
        ("Starting download using " +:+ quote +:+ "%s" +:+ quote +:+ "...")
        [AStr (pluginName E p)] ;;
      u <- Proc.index urls i ;;
      startDownloading f dir u p
  end.

(** [func main()], after [flag.Parse()]. [logger.Verbose(verbose)] only
  sets the level of what the logger shows and is left out. *)
Definition main (f : Flags) : M unit :=
  if printVersion f then Proc.emit (Println version) ;; Proc.exit 0
  else
    let urls := args f in
    let dir := normalizeDir PathSeparator (dldir f) in
    if (length urls =? 0)%nat then Proc.emit Usage ;; Proc.exit 0
    else
      let pm := Plugins E in
      let handlers := FindHandlers E pm urls in
      Proc.forRange (main_negotiate f pm urls) 0 handlers ;;
      Proc.forRange (main_download f pm dir urls) 0 handlers.

End Cli.

(** ** The collaborators, from the specification

  [cli.go] is the only source file: the plugin manager, the plugins and
  the download manager are known through the specification alone. *)

(** Modelled from the spec: the option descriptor of spec section 6,
  [{key, description, default?, required}]; package [plugins] is missing. *)
Record OptionDescriptor : Type := mkOption {
  key : string;
  description : string;
  default_ : option string;
  required : bool
}.

(** Modelled from the spec: the part of the handler contract of spec
  section 6 that resolution, negotiation and the worker count depend on
  (identity, [claims], [declaredOptions], [concurrencyCeiling]); package
  [plugins] is missing. *)
Record Handler : Type := mkHandler {
  name : string;
  claims : string -> bool;
  declaredOptions : list OptionDescriptor;
  concurrencyCeiling : option Z
}.

(** A configuration bundle. *)
Abbreviation Bundle := (gmap string string).

(** The world of the modelled collaborators: the console the operator
  types on, the bundle bound to each handler (by name), and whatever the
  download manager works on (network, disk). *)
Record World (Console D : Type) : Type := mkWorld {
  console : Console;
  bundles : gmap string Bundle;
  outside : D
}.

Arguments mkWorld {Console D} console bundles outside.
Arguments console {Console D} w.
Arguments bundles {Console D} w.
Arguments outside {Console D} w.

Module PluginManager.
Section PluginManager.

Context {Console D : Type}.

(** The interactive prompt for one option: it blocks on the console and
  yields the value it accepted. *)
Variable prompt : OptionDescriptor -> Console -> string * Console.

(** The interactive choice among several candidates: the index entered. *)
Variable choose : list Handler -> Console -> Z * Console.

(** Modelled from the spec: [PluginManager.FindHandlers] is missing. Spec
  section 4.1: for each URL, the candidates are the handlers whose claim
  predicate matches the URL, in registry order. *)
Definition FindHandlers (pm : list Handler) (urls : list string)
  : list (list Handler) :=
  map (fun url => List.filter (fun h => claims h url) pm) urls.

(** Modelled from the spec: the option negotiator is missing. Spec section
  4.2, steps 1 to 4, for one descriptor: the value to bind ([None]: left
  absent), or a configuration error naming the key. *)
Definition negotiateOption (overrides : gmap string string)
  (useDefaults noPrompt : bool) (d : OptionDescriptor) (c : Console)
  : (option string + error) * Console :=
  match overrides !! key d with
  | Some v => (inl (Some v), c)
  | None =>
      match (if useDefaults then default_ d else None) with
      | Some v => (inl (Some v), c)
      | None =>
          if required d then
            if noPrompt then (inr (ErrMissingOption (key d)), c)
            else let '(v, c') := prompt d c in (inl (Some v), c')
          else (inl None, c)
      end
  end.

(** Modelled from the spec: the negotiation of one handler (spec section
  4.2, "for each declared option descriptor of a Handler"), in the order of
  declaration, stopping at the first failure. *)
Fixpoint negotiate (overrides : gmap string string)
  (useDefaults noPrompt : bool) (ds : list OptionDescriptor) (b : Bundle)
  (c : Console) : (Bundle + error) * Console :=
  match ds with
  | [] => (inl b, c)
  | d :: ds' =>
      match negotiateOption overrides useDefaults noPrompt d c with
      | (inr e, c') => (inr e, c')
      | (inl (Some v), c') =>
          negotiate overrides useDefaults noPrompt ds' (<[key d := v]> b) c'
      | (inl None, c') =>
          negotiate overrides useDefaults noPrompt ds' b c'
      end
  end.

(** Modelled from the spec: [PluginManager.SetOptions] is missing. Spec
  section 4.1: for every handler of the candidate set, the negotiator
  finalises its bundle; the call fails if negotiation fails for any
  candidate. *)
Fixpoint SetOptions (pm candidates : list Handler)
  (overrides : gmap string string) (useDefaults noPrompt : bool)
  (w : World Console D) : option error * World Console D :=
  match candidates with
  | [] => (None, w)
  | h :: rest =>
      match negotiate overrides useDefaults noPrompt (declaredOptions h) ∅
              (console w) with
      | (inr e, c') => (Some e, mkWorld c' (bundles w) (outside w))
      | (inl b, c') =>
          SetOptions pm rest overrides useDefaults noPrompt
            (mkWorld c' (<[name h := b]> (bundles w)) (outside w))
      end
  end.

(** Modelled from the spec: [PluginManager.SelectPlugin] is missing. Spec
  section 4.1: one candidate is returned without interaction; among
  several the operator chooses by index, an index out of range being an
  input error; an empty candidate set is the "no handler" error. *)
Definition SelectPlugin (pm candidates : list Handler) (w : World Console D)
  : (Handler + error) * World Console D :=
  match candidates with
  | [] => (inr ErrNoHandler, w)
  | [h] => (inl h, w)
  | _ =>
      let '(i, c') := choose candidates (console w) in
      let w' := mkWorld c' (bundles w) (outside w) in
      match (if (0 <=? i)%Z then candidates !! Z.to_nat i else None) with
      | Some h => (inl h, w')
      | None => (inr ErrInvalidChoice, w')
      end
  end.

End PluginManager.
End PluginManager.

Module DownloadManager.
Section DownloadManager.

Context {Console D : Type}.

(** Modelled from the spec: [DownloadManager.Download] is missing. Spec
  section 4.3, step 2: the effective concurrency is [requestedWorkers],
  unless the handler declares a ceiling and [override] is false, in which
  case it is the handler's ceiling. *)
Definition effectiveConcurrency (h : Handler) (requestedWorkers : Z)
  (override : bool) : Z :=
  match concurrencyCeiling h with
  | Some ceiling => if override then requestedWorkers else ceiling
  | None => requestedWorkers
  end.

(** The worker pool behind [Download] (spec section 4.3, steps 1 and 3 to
  6): given the handler, its bundle, the directory, the URL, the number of
  workers and the zip flag, it works on the outside world only. *)
Variable runPool :
  Handler -> option Bundle -> string -> string -> Z -> bool ->
  D -> DownloadResult * D.

(** Modelled from the spec: [NewDownloadManager(plugin, dldir).Download(url,
  requestedWorkers, zip, override)], spec section 4.3: a pool of exactly
  the effective concurrency runs over the items of the URL. *)
Definition Download (plugin : Handler) (dir url : string)
  (requestedWorkers : Z) (zip override : bool) (w : World Console D)
  : DownloadResult * World Console D :=
  let '(res, d') :=
    runPool plugin (bundles w !! name plugin) dir url
      (effectiveConcurrency plugin requestedWorkers override) zip (outside w)
  in (res, mkWorld (console w) (bundles w) d').

End DownloadManager.
End DownloadManager.

(** The collaborators assembled for [main]. *)
Definition specEnv {Console D : Type}
  (registry : list Handler)
  (prompt : OptionDescriptor -> Console -> string * Console)
  (choose : list Handler -> Console -> Z * Console)
  (runPool : Handler -> option Bundle -> string -> string -> Z -> bool ->
             D -> DownloadResult * D)
  : Env Handler (World Console D) :=
  {| Plugins := registry;
     FindHandlers := PluginManager.FindHandlers;
     SetOptions := PluginManager.SetOptions prompt;
     SelectPlugin := PluginManager.SelectPlugin choose;
     pluginName := name;
     Download := DownloadManager.Download runPool |}.

(** ** Reading a trace *)

Section Traces.

Context {Plugin : Type}.

(** The calls of the negotiation phase. *)
Definition isNegotiation (e : Event Plugin) : bool :=
  match e with
  | SetOptionsCall _ _ => true
  | _ => false
  end.

(** The calls of selection and of a download run. *)
Definition isSelectionOrDownload (e : Event Plugin) : bool :=
  match e with
  | SelectPluginCall _ _ | ReporterStart | DownloadCall _ _ _
  | ReporterStop | LineRelease => true
  | _ => false
  end.

(** A failed selection or a panicking download. *)
Definition isFailure (e : Event Plugin) : bool :=
  match e with
  | SelectPluginCall _ (inr _) | DownloadCall _ _ (DlPanic _) => true
  | _ => false
  end.

(** What a trace ends with when a selection fails, and when a run
  panics. *)
Definition selectEnd (h : list Plugin) (err : error) : list (Event Plugin) :=
  [SelectPluginCall h (inr err); Log LFatal "%v" [AErr err]].

Definition panicEnd (u : string) (p : Plugin) (v : string)
  : list (Event Plugin) :=
  [DownloadCall u p (DlPanic v); ReporterStop; LineRelease;
   Log LFatal "Panicked: %v" [AVal v]].

Definition negotiationEnd (h : list Plugin) (e : error)
  : list (Event Plugin) :=
  [SetOptionsCall h (Some e); Log LFatal "%v" [AErr e]].

(** The [SetOptions] calls of a trace, in order. *)
Fixpoint negotiations (t : list (Event Plugin))
  : list (list Plugin * option error) :=
  match t with
  | [] => []
  | SetOptionsCall h err :: t' => (h, err) :: negotiations t'
  | _ :: t' => negotiations t'
  end.

(** The download runs of a trace, in order: the URL of each [Download]
  call. *)
Fixpoint runs (t : list (Event Plugin)) : list string :=
  match t with
  | [] => []
  | DownloadCall url _ _ :: t' => url :: runs t'
  | _ :: t' => runs t'
  end.

End Traces.

(** A bundle is fully resolved for a handler when it binds every required
  option of the handler. *)
Definition resolvedBundle (h : Handler) (b : Bundle) : Prop :=
  forall d, In d (declaredOptions h) -> required d = true ->
            is_Some (b !! key d).

Definition resolved {Console D : Type} (w : World Console D) (h : Handler)
  : Prop :=
  exists b, bundles w !! name h = Some b /\ resolvedBundle h b.

(** A descriptor that negotiation cannot settle without asking: the
  option is required, the operator gave no override for its key, and no
  default can be used. *)
Definition unsettled (overrides : gmap string string) (useDefaults : bool)
  (d : OptionDescriptor) : Prop :=
  required d = true
  /\ overrides !! key d = None
  /\ (useDefaults = false \/ default_ d = None).

(** The first unsettled descriptor of a list, if any. *)
Definition firstUnsettled (overrides : gmap string string)
  (useDefaults : bool) (ds : list OptionDescriptor) (d : OptionDescriptor)
  : Prop :=
  exists pre post,
    ds = pre ++ d :: post
    /\ unsettled overrides useDefaults d
    /\ forall d0, In d0 pre -> ~ unsettled overrides useDefaults d0.

(** ** Isolation of failures, as the specification words it

  The specification promises that a URL without handler, a failed selection
  and a panicking run are each confined to their URL, the sibling URLs
  being processed all the same. Stated on the trace [t] of an invocation,
  for the siblings whose own selection cannot fail (one candidate): *)

Section Isolation.

Context {Plugin W : Type}.
Variable E : Env Plugin W.

Definition soleCandidate (f : Flags) (j : nat) : Prop :=
  exists p, FindHandlers E (Plugins E) (args f) !! j = Some [p].

Definition siblingsRun (f : Flags) (t : list (Event Plugin)) : Prop :=
  forall j u, soleCandidate f j -> args f !! j = Some u -> In u (runs t).


Definition selectionFailureIsolated (f : Flags) (t : list (Event Plugin))
  : Prop :=
  forall h err, In (SelectPluginCall h (inr err)) t -> siblingsRun f t.

Definition panicIsolated (f : Flags) (t : list (Event Plugin)) : Prop :=
  forall u p v, In (DownloadCall u p (DlPanic v)) t -> siblingsRun f t.

End Isolation.

(** ** A small installation, for examples

  The console holds the lines and the indices still to be typed; the pool
  panics on the URL [boom] and otherwise downloads one file. *)
Module Demo.

Definition Console : Type := list string * list Z.

Definition prompt (d : OptionDescriptor) (c : Console) : string * Console :=
  match fst c with
  | [] => (EmptyString, c)
  | l :: ls => (l, (ls, snd c))
  end.

Definition choose (cands : list Handler) (c : Console) : Z * Console :=
  match snd c with
  | [] => ((-1)%Z, c)
  | i :: is_ => (i, (fst c, is_))
  end.

Definition runPool (h : Handler) (b : option Bundle) (dir url : string)
  (n : Z) (zip : bool) (d : unit) : DownloadResult * unit :=
  if String.eqb url "boom" then (DlPanic "worker fault", d)
  else (DlOk [dir +:+ url], d).

(** Two handlers for the site [a], one of them serial, and one for [b]. *)
Definition siteA : Handler :=
  {| name := "a";
     claims := fun url => GoStrings.HasPrefix url "a";
     declaredOptions :=
       [ mkOption "user" "account name" None true;
         mkOption "quality" "image quality" (Some "high") false ];
     concurrencyCeiling := None |}.

Definition siteA_serial : Handler :=
  {| name := "a-serial";
     claims := fun url => GoStrings.HasPrefix url "a";
     declaredOptions := [];
     concurrencyCeiling := Some 1%Z |}.

Definition siteB : Handler :=
  {| name := "b";
     claims := fun url => GoStrings.HasPrefix url "b";
     declaredOptions := [];
     concurrencyCeiling := Some 5%Z |}.




Definition env (registry : list Handler) : Env Handler (World Console unit) :=
  specEnv registry prompt choose runPool.

Definition flags (opts : OptionsFlag.t) (useDefaults noPrompt : bool)
  (urls : list string) : Flags :=
  {| options := opts; workers := 10; verbose := false;
     defaults := useDefaults; noprompt := noPrompt; zipit := false;
     printVersion := false; override := false; dldir := "downloads/";
     args := urls |}.

Definition start (c : Console) : Proc.State Handler (World Console unit) :=
  Proc.mkState (mkWorld c ∅ tt) [].

Definition run (registry : list Handler) (f : Flags) (c : Console)
  : Res unit * Proc.State Handler (World Console unit) :=
  main (env registry) "/" "UNSET" f (start c).

Definition alice : OptionsFlag.t := Some {[ "user" := "alice" ]}.


(** A panic on the second of three URLs, and on the first of two. *)
Definition panicFlags : Flags := flags None false true ["b1"; "boom"; "b2"].
Definition panicRun := run [siteB] panicFlags ([], []).
Definition panicFirstFlags : Flags := flags None false true ["boom"; "b1"].
Definition panicFirstRun := run [siteB] panicFirstFlags ([], []).

(** The operator types the index 7 when asked to choose between the two
  handlers of the site [a]; and the index 1. *)
Definition sites : list Handler := [siteA; siteA_serial; siteB].
Definition sites_a : list Handler := [siteA; siteA_serial].
Definition choiceFlags : Flags := flags alice true true ["b1"; "a1"; "b2"].
Definition choiceRun := run sites choiceFlags ([], [7%Z]).
Definition choiceFirstFlags : Flags := flags alice true true ["a1"; "b1"].
Definition choiceFirstRun := run sites choiceFirstFlags ([], [7%Z]).
Definition goodRun := run sites choiceFirstFlags ([], [1%Z]).


End Demo.

(** ** Further parts of [cli.go] *)

(** [func (opt *OptionsFlag) String() string]. The [range] loop visits the
  bindings of the map in an order Go leaves unspecified: [String_] takes the
  bindings in the order [visited] in which they are met. [quote] is the
  [%q] verb of [fmt]. *)
Module OptionsString.

(** [strings.Join]. *)
Fixpoint Join (elems : list string) (sep : string) : string :=
  match elems with
  | [] => EmptyString
  | [e] => e
  | e :: rest => e +:+ sep +:+ Join rest sep
  end.

Section String.

Variable quote : string -> string.

(** [fmt.Sprintf("%q: %q", k, v)] *)
Definition entry (kv : string * string) : string :=
  quote kv.1 +:+ ": " +:+ quote kv.2.

Definition String_ (visited : list (string * string)) : string :=
  let res := map entry visited in
  let content := Join res ", " in
  if negb (String.eqb content "") then "{" +:+ content +:+ "}"
  else "".

End String.

End OptionsString.

(** ** More on reading a trace *)

Section Blocks.

Context {Plugin : Type}.

(** A call that ends the process: a failed negotiation, a failed selection
  or a panicking download. *)
Definition isFailedCall (e : Event Plugin) : bool :=
  match e with
  | SetOptionsCall _ (Some _) => true
  | SelectPluginCall _ (inr _) => true
  | DownloadCall _ _ (DlPanic _) => true
  | _ => false
  end.

(** The log line that [main] writes for each URL when several are given. *)
Definition isProcessingLog (e : Event Plugin) : bool :=
  match e with
  | Log LInfo format _ => String.eqb format "Processing URL: %s"
  | _ => false
  end.

(** What [startDownloading] does after [Download], by its result. *)
Definition runOutcome (res : DownloadResult) : list (Event Plugin) :=
  match res with
  | DlOk dls =>
      [Log LInfo "Done! Got a total of %d downloads."
         [AInt (Z.of_nat (length dls))];
       ReporterStop; LineRelease]
  | DlErr err => [Log LError "%v" [AErr err]; ReporterStop; LineRelease]
  | DlPanic r =>
      [ReporterStop; LineRelease; Log LFatal "Panicked: %v" [AVal r]]
  end.

(** The trace of one call of [startDownloading]. *)
Definition runBlock (u : string) (p : Plugin) (res : DownloadResult)
  : list (Event Plugin) :=
  ReporterStart :: DownloadCall u p res :: runOutcome res.

(** The trace of one iteration of the second loop of [main] that reaches
  [startDownloading]; [multi] tells whether several URLs were given. *)
Definition urlBlock (multi : bool) (h : list Plugin) (p : Plugin)
  (pname u : string) (res : DownloadResult) : list (Event Plugin) :=
  SelectPluginCall h (inl p)
    :: (if multi then [Log LInfo "Processing URL: %s" [AStr u]] else [])
    ++ Log LInfo
         ("Starting download using " +:+ quote +:+ "%s" +:+ quote +:+ "...")
         [AStr pname]
    :: runBlock u p res.

(** The number of events of a trace that [P] recognises. *)
Definition countIf (P : Event Plugin -> bool) (t : list (Event Plugin))
  : nat :=
  length (List.filter P t).

Definition isReporterStart (e : Event Plugin) : bool :=
  match e with ReporterStart => true | _ => false end.

Definition isReporterStop (e : Event Plugin) : bool :=
  match e with ReporterStop => true | _ => false end.

Definition isLineRelease (e : Event Plugin) : bool :=
  match e with LineRelease => true | _ => false end.

(** Every download run of the trace started the reporter once, stopped it
  once and released the reserved line once, and nothing else did. *)
Definition balanced (t : list (Event Plugin)) : Prop :=
  countIf isReporterStart t = length (runs t)
  /\ countIf isReporterStop t = length (runs t)
  /\ countIf isLineRelease t = length (runs t).

End Blocks.

(** More invocations of the small installation. *)
Module DemoMore.

(** A stand-in for the [%q] verb: the string between double quotes. *)
Definition quoted (s : string) : string := quote +:+ s +:+ quote.


Definition singleFlags : Flags := Demo.flags None false true ["b1"].
Definition singleRun := Demo.run [Demo.siteB] singleFlags ([], []).

End DemoMore.




(** * Theorems *)

(** ** Byte strings *)

Section StringLemmas.

Import GoStrings.

Lemma string_app_cons (c : ascii) (s t : string) :
  String c s +:+ t = String c (s +:+ t).
Proof. reflexivity. Qed.

Lemma length_app_string (s t : string) :
  String.length (s +:+ t) = String.length s + String.length t.
Proof.
  induction s as [|c s IH]; [done |].
  rewrite string_app_cons. simpl. by rewrite IH.
Qed.

Lemma string_app_nil_r (s : string) : s +:+ EmptyString = s.
Proof.
  induction s as [|c s IH]; [done |]. by rewrite string_app_cons, IH.
Qed.

Lemma string_app_assoc_r (s t u : string) : (s +:+ t) +:+ u = s +:+ t +:+ u.
Proof.
  induction s as [|c s IH]; [done |]. by rewrite !string_app_cons, IH.
Qed.

Lemma substring_all (s : string) : substring 0 (String.length s) s = s.
Proof. induction s as [|c s IH]; simpl; [done | by rewrite IH]. Qed.

Lemma slice_to_app (s t : string) : slice_to (String.length s) (s +:+ t) = s.
Proof.
  unfold slice_to. induction s as [|c s IH].
  - by destruct t.
  - rewrite string_app_cons. simpl. by rewrite IH.
Qed.

Lemma substring_skip_app (s t : string) (n : nat) :
  substring (String.length s) n (s +:+ t) = substring 0 n t.
Proof.
  induction s as [|c s IH]; [done |]. rewrite string_app_cons. apply IH.
Qed.

Lemma slice_from_app (s t : string) :
  slice_from (String.length s) (s +:+ t) = t.
Proof.
  unfold slice_from. rewrite substring_skip_app, length_app_string.
  replace (String.length s + String.length t - String.length s)
    with (String.length t) by lia.
  apply substring_all.
Qed.

Lemma HasSuffix_app (s suffix : string) : HasSuffix (s +:+ suffix) suffix = true.
Proof.
  unfold HasSuffix. rewrite length_app_string.
  replace (String.length s + String.length suffix - String.length suffix)
    with (String.length s) by lia.
  rewrite slice_from_app, String.eqb_refl, andb_true_r.
  apply Nat.leb_le. lia.
Qed.

Lemma TrimSuffix_app (s suffix : string) : TrimSuffix (s +:+ suffix) suffix = s.
Proof.
  unfold TrimSuffix. rewrite HasSuffix_app, length_app_string.
  replace (String.length s + String.length suffix - String.length suffix)
    with (String.length s) by lia.
  apply slice_to_app.
Qed.

Lemma ContainsByte_app (s t : string) (c : ascii) :
  ContainsByte (s +:+ t) c = ContainsByte s c || ContainsByte t c.
Proof.
  induction s as [|b s IH]; [done |].
  rewrite string_app_cons. simpl. by rewrite IH, orb_assoc.
Qed.

Lemma ContainsByte_substring (s : string) (c : ascii) (i n : nat) :
  ContainsByte s c = false -> ContainsByte (substring i n s) c = false.
Proof.
  revert i n. induction s as [|b s IH]; intros i n H.
  - by destruct i, n.
  - simpl in H. apply orb_false_iff in H as [Hb Hs].
    destruct i as [|i]; destruct n as [|n]; simpl; auto.
    rewrite Hb. simpl. auto.
Qed.

Lemma ContainsByte_TrimSuffix (s suffix : string) (c : ascii) :
  ContainsByte s c = false -> ContainsByte (TrimSuffix s suffix) c = false.
Proof.
  intros H. unfold TrimSuffix, slice_to.
  destruct (HasSuffix s suffix); [by apply ContainsByte_substring | done].
Qed.

Lemma ReplaceAllByte_clean (s : string) (old new : ascii) :
  new <> old -> ContainsByte (ReplaceAllByte s old new) old = false.
Proof.
  intros Hne. induction s as [|b s IH]; simpl; [done |].
  rewrite IH, orb_false_r.
  destruct (Ascii.eqb b old) eqn:Hb; [| done].
  apply Ascii.eqb_neq. done.
Qed.

Lemma ReplaceAllByte_id (s : string) (old new : ascii) :
  ContainsByte s old = false -> ReplaceAllByte s old new = s.
Proof.
  induction s as [|b s IH]; simpl; [done |].
  intros H. apply orb_false_iff in H as [Hb Hs].
  by rewrite Hb, IH.
Qed.

(** [FromSlash] leaves its own results alone, also after trimming and
  appending separators. *)
Lemma FromSlash_fixed (sep : ascii) (s : string) :
  (Ascii.eqb sep "/" = false -> ContainsByte s "/" = false) ->
  FromSlash sep s = s.
Proof.
  unfold FromSlash. destruct (Ascii.eqb sep "/"); [done |].
  intros H. apply ReplaceAllByte_id. auto.
Qed.

Lemma FromSlash_clean (sep : ascii) (s : string) :
  Ascii.eqb sep "/" = false -> ContainsByte (FromSlash sep s) "/" = false.
Proof.
  intros H. unfold FromSlash. rewrite H.
  apply ReplaceAllByte_clean. by apply Ascii.eqb_neq.
Qed.

(** [Index] for a one-byte separator. *)
Lemma HasPrefix_byte (s : string) (c : ascii) :
  HasPrefix s (String c EmptyString)
  = match s with
    | EmptyString => false
    | String b _ => Ascii.eqb c b
    end.
Proof.
  destruct s as [|b s]; simpl; [done |].
  destruct s; simpl; apply andb_true_r.
Qed.

Lemma Index_byte_None (s : string) (c : ascii) :
  ContainsByte s c = false -> Index s (String c EmptyString) = None.
Proof.
  induction s as [|b s IH]; [done |].
  intros H. simpl in H. apply orb_false_iff in H as [Hb Hs].
  cbn [Index]. rewrite HasPrefix_byte, Ascii.eqb_sym, Hb, (IH Hs). done.
Qed.

Lemma Index_byte_first (k val : string) (c : ascii) :
  ContainsByte k c = false ->
  Index (k +:+ String c val) (String c EmptyString) = Some (String.length k).
Proof.
  induction k as [|b k IH]; intros H.
  - change (EmptyString +:+ String c val) with (String c val).
    cbn [Index]. by rewrite HasPrefix_byte, Ascii.eqb_refl.
  - simpl in H. apply orb_false_iff in H as [Hb Hk].
    rewrite string_app_cons. cbn [Index]. rewrite HasPrefix_byte, Ascii.eqb_sym, Hb, (IH Hk). done.
Qed.

(** A string that contains [c] is cut at its first [c]. *)
Lemma ContainsByte_cut (s : string) (c : ascii) :
  ContainsByte s c = true ->
  exists k val, s = k +:+ String c val /\ ContainsByte k c = false.
Proof.
  induction s as [|b s IH]; [done |].
  simpl. destruct (Ascii.eqb b c) eqn:Hb; simpl.
  - intros _. apply Ascii.eqb_eq in Hb as ->. by exists EmptyString, s.
  - intros H. destruct (IH H) as (k & val & -> & Hk).
    exists (String b k), val. split; [done |]. simpl. by rewrite Hb.
Qed.

Lemma SplitN_2_none (v : string) :
  ContainsByte v "=" = false -> SplitN v "=" 2 = [v].
Proof.
  intros H. unfold SplitN.
  destruct (Nat.min 2 (String.length v + 1) - 1) as [|n]; simpl; [done |].
  by rewrite (Index_byte_None _ _ H).
Qed.

Lemma SplitN_2_cut (k val : string) :
  ContainsByte k "=" = false ->
  SplitN (k +:+ String "=" val) "=" 2 = [k; val].
Proof.
  intros H. unfold SplitN. rewrite length_app_string. simpl String.length.
  replace (Nat.min 2 (String.length k + S (String.length val) + 1) - 1)
    with 1 by lia.
  cbn [genSplit_loop]. rewrite (Index_byte_first _ _ _ H).
  rewrite slice_to_app. f_equal.
  change (String "=" val) with ("=" +:+ val).
  rewrite <- string_app_assoc_r.
  replace (String.length k + String.length "=")
    with (String.length (k +:+ "=")) by (by rewrite length_app_string).
  by rewrite slice_from_app.
Qed.

End StringLemmas.

(** ** [OptionsFlag.Set] and the download directory *)

Lemma Set_invalid (opt : OptionsFlag.t) (v : string) :
  GoStrings.ContainsByte v "=" = false ->
  OptionsFlag.Set_ opt v = (Some ErrInvalidOptionFormat, opt).
Proof.
  intros H. unfold OptionsFlag.Set_.
  by rewrite (SplitN_2_none _ H).
Qed.

Lemma Set_valid (opt : OptionsFlag.t) (k val : string) :
  GoStrings.ContainsByte k "=" = false ->
  OptionsFlag.Set_ opt (k +:+ "=" +:+ val)
  = (None, Some (<[k := val]> (OptionsFlag.table opt))).
Proof.
  intros H. unfold OptionsFlag.Set_.
  change ("=" +:+ val) with (String "=" val).
  by rewrite (SplitN_2_cut _ _ H).
Qed.

(** C9. [OptionsFlag.Set(v)] returns [ErrInvalidOptionFormat] exactly when
  [v] contains no ['=']; then the flag is left as it was. Otherwise it
  succeeds: [v] is cut at its first ['='], the part before it is the key and
  everything after it (further ['='] included) is the value; the key is
  bound to the value, replacing any earlier binding, and every other key
  keeps its binding. *)
Theorem OptionsFlag_Set_spec (opt : OptionsFlag.t) (v : string) :
  (fst (OptionsFlag.Set_ opt v) = Some ErrInvalidOptionFormat
   <-> GoStrings.ContainsByte v "=" = false)
  /\ (GoStrings.ContainsByte v "=" = false ->
      OptionsFlag.Set_ opt v = (Some ErrInvalidOptionFormat, opt))
  /\ (GoStrings.ContainsByte v "=" = true ->
      exists k val,
        v = k +:+ "=" +:+ val /\ GoStrings.ContainsByte k "=" = false)
  /\ (forall k val,
        v = k +:+ "=" +:+ val -> GoStrings.ContainsByte k "=" = false ->
        OptionsFlag.Set_ opt v
        = (None, Some (<[k := val]> (OptionsFlag.table opt)))
        /\ OptionsFlag.table (snd (OptionsFlag.Set_ opt v)) !! k = Some val
        /\ forall k', k' <> k ->
             OptionsFlag.table (snd (OptionsFlag.Set_ opt v)) !! k'
             = OptionsFlag.table opt !! k').
Proof.
  split; [| split; [| split]].
  - split.
    + intros Herr.
      destruct (GoStrings.ContainsByte v "=") eqn:Hc; [| done].
      destruct (ContainsByte_cut _ _ Hc) as (k & val & -> & Hk).
      change (String "=" val) with ("=" +:+ val) in Herr.
      by rewrite (Set_valid opt k val Hk) in Herr.
    + intros Hc. by rewrite (Set_invalid opt v Hc).
  - apply Set_invalid.
  - intros Hc. destruct (ContainsByte_cut _ _ Hc) as (k & val & -> & Hk).
    by exists k, val.
  - intros k val -> Hk. rewrite (Set_valid opt k val Hk). simpl.
    split; [done |]. split.
    + apply lookup_insert_eq.
    + intros k' Hne. by apply lookup_insert_ne.
Qed.

(** C10. The directory normalisation of [main] always ends in the path
  separator and is idempotent. *)
Theorem normalizeDir_idempotent (PathSeparator : ascii) (s : string) :
  GoStrings.HasSuffix (normalizeDir PathSeparator s) (sepString PathSeparator)
  = true
  /\ normalizeDir PathSeparator (normalizeDir PathSeparator s)
     = normalizeDir PathSeparator s.
Proof.
  unfold normalizeDir. split; [apply HasSuffix_app |].
  set (t := GoStrings.TrimSuffix (GoStrings.FromSlash PathSeparator s)
              (sepString PathSeparator)).
  rewrite FromSlash_fixed; [by rewrite TrimSuffix_app |].
  intros Hsep. rewrite ContainsByte_app. apply orb_false_iff. split.
  - apply ContainsByte_TrimSuffix. by apply FromSlash_clean.
  - unfold sepString. simpl. by rewrite Hsep.
Qed.

(** ** The loops of [main], over any collaborators *)

Section TraceLemmas.

Context {Plugin : Type}.
Implicit Types t : list (Event Plugin).

Lemma negotiations_app t1 t2 :
  negotiations (t1 ++ t2) = negotiations t1 ++ negotiations t2.
Proof.
  induction t1 as [|e t1 IH]; [done |].
  destruct e; simpl; rewrite ?IH; done.
Qed.

Lemma runs_app t1 t2 : runs (t1 ++ t2) = runs t1 ++ runs t2.
Proof.
  induction t1 as [|e t1 IH]; [done |].
  destruct e; simpl; rewrite ?IH; done.
Qed.

Lemma negotiations_In t (h : list Plugin) (err : option error) :
  In (SetOptionsCall h err) t -> In (h, err) (negotiations t).
Proof.
  induction t as [|e t IH]; [done |].
  intros [-> | Hin]; [by left |].
  destruct e; simpl; auto.
Qed.

Lemma negotiations_quiet t :
  Forall (fun e => isNegotiation e = false) t -> negotiations t = [].
Proof.
  induction 1 as [|e t He _ IH]; [done |].
  destruct e; simpl in *; done.
Qed.

Lemma runs_quiet t :
  Forall (fun e => isSelectionOrDownload e = false) t -> runs t = [].
Proof.
  induction 1 as [|e t He _ IH]; [done |].
  destruct e; simpl in *; done.
Qed.

End TraceLemmas.

Section Loops.

Context {Plugin W : Type}.
Implicit Types s : Proc.State Plugin W.

Lemma forRange_app {A} (body : nat -> A -> Proc.M Plugin W unit)
  (i : nat) (xs ys : list A) s :
  Proc.forRange body i (xs ++ ys) s
  = match Proc.forRange body i xs s with
    | (Ret _, s1) => Proc.forRange body (i + length xs) ys s1
    | (Exit code, s1) => (Exit code, s1)
    end.
Proof.
  revert i s. induction xs as [|x xs IH]; intros i s.
  - simpl. by rewrite Nat.add_0_r.
  - simpl. unfold Proc.bind.
    destruct (body i x s) as [[[]|code] s1]; [| done].
    rewrite IH. by replace (S i + length xs) with (i + S (length xs)) by lia.
Qed.

End Loops.

Section CliFacts.

Context {Plugin W : Type}.
Variable E : Env Plugin W.
Implicit Types s : Proc.State Plugin W.
Implicit Types t : list (Event Plugin).

Lemma main_negotiate_body (f : Flags) pm urls i h s r s' :
  main_negotiate E f pm urls i h s = (r, s') ->
  exists t,
    Proc.trace s' = Proc.trace s ++ t
    /\ Forall (fun e => isSelectionOrDownload e = false) t
    /\ ((r = Ret tt /\ negotiations t = [(h, None)]
         /\ (h = [] -> forall u, urls !! i = Some u ->
             In (Log LError "Found no handler for: %s" [AStr u]) t))
        \/ (r = Exit 1 /\ exists e t0 w',
              t = t0 ++ negotiationEnd h e
              /\ negotiations t0 = []
              /\ SetOptions E pm h (OptionsFlag.table (options f))
                   (defaults f) (noprompt f) (Proc.world s)
                 = (Some e, w'))
        \/ (r = Exit 2 /\ urls !! i = None /\ negotiations t = [])).
Proof.
  unfold main_negotiate, Proc.bind, Proc.call, Proc.emit, Proc.logf,
    Proc.fatalf, Proc.index, Proc.exit, Proc.ret, Proc.bind.
  destruct h as [|p h]; simpl.
  - destruct (urls !! i) as [u|] eqn:Hu; simpl.
    + destruct (SetOptions E pm [] _ _ _ _) as [[e|] w] eqn:Hset; simpl;
        intros [= <- <-]; simpl.
      * eexists. split; [by rewrite <- !app_assoc |]. split; [repeat constructor |].
        right; left. split; [done |]. by eexists e, [_], w.
      * eexists. split; [by rewrite <- !app_assoc |]. split; [repeat constructor |].
        left. split; [done |]. split; [done |]. intros _ u' [= <-]. by left.
    + intros [= <- <-]. simpl. eexists. split; [done |].
      split; [repeat constructor |]. right; right. done.
  - destruct (SetOptions E pm (p :: h) _ _ _ _) as [[e|] w] eqn:Hset; simpl;
      intros [= <- <-]; simpl.
    + eexists. split; [by rewrite <- !app_assoc |]. split; [repeat constructor |].
      right; left. split; [done |]. by eexists e, [], w.
    + eexists. split; [done |]. split; [repeat constructor |].
      left. done.
Qed.

Lemma main_download_body (f : Flags) pm dir urls i h s r s' :
  main_download E f pm dir urls i h s = (r, s') ->
  exists t,
    Proc.trace s' = Proc.trace s ++ t
    /\ Forall (fun e => isNegotiation e = false) t
    /\ ((r = Ret tt /\ Forall (fun e => isFailure e = false) t
         /\ (exists u, urls !! i = Some u /\ runs t = [u])
         /\ exists p w', SelectPlugin E pm h (Proc.world s) = (inl p, w'))
        \/ (r = Exit 1 /\ runs t = [] /\ exists err w',
              t = selectEnd h err
              /\ SelectPlugin E pm h (Proc.world s) = (inr err, w'))
        \/ (r = Exit 1 /\ exists u p v t0 w w',
              urls !! i = Some u /\ runs t = [u] /\ t = t0 ++ panicEnd u p v
              /\ Forall (fun e => isFailure e = false) t0
              /\ Download E p dir u (workers f) (zipit f) (override f) w
                 = (DlPanic v, w')
              /\ exists w0, SelectPlugin E pm h (Proc.world s) = (inl p, w0))
        \/ (r = Exit 2 /\ Forall (fun e => isFailure e = false) t
            /\ urls !! i = None /\ runs t = [])).
Proof.
  unfold main_download, startDownloading, startDownloading_deferred,
    Proc.bind, Proc.call, Proc.emit, Proc.logf,
    Proc.fatalf, Proc.index, Proc.exit, Proc.ret, Proc.bind.
  destruct (SelectPlugin E pm h (Proc.world s)) as [[p|err] w] eqn:Hsel; simpl.
  2: { intros [= <- <-]. simpl. eexists. split; [by rewrite <- !app_assoc |].
       split; [repeat constructor |]. right; left. split; [done |].
       split; [done |]. by exists err, w. }
  destruct (urls !! i) as [u|] eqn:Hu; simpl.
  2: { destruct (1 <? length urls)%nat; simpl; intros [= <- <-]; simpl;
       (eexists; split; [by rewrite <- ?app_assoc |]);
       (split; [repeat constructor |]); right; right; right;
       (split; [done |]); (split; [repeat constructor |]); done. }
  destruct (1 <? length urls)%nat; simpl;
    destruct (Download E p dir u _ _ _ w) as [[dls|err|v] w'] eqn:Hdl; simpl;
    intros [= <- <-]; simpl;
    (eexists; split; [by rewrite <- ?app_assoc |]);
    (split; [repeat constructor |]).
  all: try (left; split; [done |]; split; [repeat constructor |];
            split; [by exists u | by exists p, w]).
  all: right; right; left; split; [done |]; exists u, p, v.
  - eexists [_; _; _; _], w, w'. split; [done |]. split; [done |].
    split; [done |]. split; [repeat constructor |]. split; [done | by exists w].
  - eexists [_; _; _], w, w'. split; [done |]. split; [done |].
    split; [done |]. split; [repeat constructor |]. split; [done | by exists w].
Qed.


Lemma negotiate_loop (f : Flags) pm urls hs : forall i s r s',
  Proc.forRange (main_negotiate E f pm urls) i hs s = (r, s') ->
  exists t,
    Proc.trace s' = Proc.trace s ++ t
    /\ Forall (fun e => isSelectionOrDownload e = false) t
    /\ ((r = Ret tt
         /\ negotiations t = map (fun h => (h, None)) hs
         /\ (forall k u, hs !! k = Some [] -> urls !! (i + k) = Some u ->
             In (Log LError "Found no handler for: %s" [AStr u]) t))
        \/ (r = Exit 1 /\ exists h e t0 w w',
              In h hs /\ t = t0 ++ negotiationEnd h e
              /\ Forall (fun x => x.2 = None) (negotiations t0)
              /\ SetOptions E pm h (OptionsFlag.table (options f))
                   (defaults f) (noprompt f) w
                 = (Some e, w'))
        \/ (r = Exit 2 /\ length urls < i + length hs
            /\ Forall (fun x => x.2 = None) (negotiations t))).
Proof.
  induction hs as [|h hs IH]; intros i s r s'.
  - intros [= <- <-]. exists []. split; [by rewrite app_nil_r |].
    split; [constructor |]. left. split; [done |]. split; [done |].
    intros k u Hk. by rewrite lookup_nil in Hk.
  - simpl. unfold Proc.bind.
    destruct (main_negotiate E f pm urls i h s) as [r1 s1] eqn:Hbody.
    apply main_negotiate_body in Hbody as (t1 & Ht1 & Hq1 & Hcase).
    destruct Hcase as [(-> & Hn1 & Hlog1)
                      | [(-> & e & t0 & w1 & -> & Hn0 & Hset) | (-> & Hu & Hn1)]].
    + intros Hrest. apply IH in Hrest as (t2 & Ht2 & Hq2 & Hcase).
      exists (t1 ++ t2). split; [by rewrite Ht2, Ht1, app_assoc |].
      split; [by apply Forall_app |].
      destruct Hcase as [(-> & Hn2 & Hlog2)
                        | [(-> & h' & e & t0 & w1 & w2 & Hin & -> & Hn0 & Hset)
                        | (-> & Hlen & Hn2)]].
      * left. split; [done |]. split; [by rewrite negotiations_app, Hn1, Hn2 |].
        intros [|k] u Hk Hu; apply in_or_app.
        -- left. simpl in Hk. injection Hk as ->. rewrite Nat.add_0_r in Hu. eauto.
        -- right. simpl in Hk. apply (Hlog2 k u Hk).
           by replace (S i + k) with (i + S k) by lia.
      * right; left. split; [done |]. exists h', e, (t1 ++ t0), w1, w2.
        split; [by right |]. split; [by rewrite app_assoc |]. split; [| done].
        rewrite negotiations_app, Hn1. by constructor.
      * right; right. split; [done |]. split; [simpl; lia |].
        rewrite negotiations_app, Hn1. by constructor.
    + intros [= <- <-]. exists (t0 ++ negotiationEnd h e).
      split; [done |]. split; [done |]. right; left. split; [done |].
      exists h, e, t0, (Proc.world s), w1.
      split; [by left |]. split; [done |]. split; [by rewrite Hn0 | done].
    + intros [= <- <-]. exists t1. split; [done |]. split; [done |].
      right; right. split; [done |]. split.
      * apply lookup_ge_None in Hu. simpl. lia.
      * by rewrite Hn1.
Qed.

Lemma download_loop (f : Flags) pm dir urls hs : forall i s r s',
  Proc.forRange (main_download E f pm dir urls) i hs s = (r, s') ->
  exists t n,
    Proc.trace s' = Proc.trace s ++ t
    /\ Forall (fun e => isNegotiation e = false) t
    /\ runs t = take n (drop i urls)
    /\ n <= length hs
    /\ (forall j h, j < n -> hs !! j = Some h ->
        exists w p w', SelectPlugin E pm h w = (inl p, w'))
    /\ ((r = Ret tt /\ n = length hs
         /\ Forall (fun e => isFailure e = false) t)
        \/ (r = Exit 1 /\ exists h err t0 w w',
              hs !! n = Some h /\ t = t0 ++ selectEnd h err
              /\ Forall (fun e => isFailure e = false) t0
              /\ SelectPlugin E pm h w = (inr err, w'))
        \/ (r = Exit 1 /\ exists u p v t0 w w',
              0 < n /\ urls !! (i + n - 1) = Some u /\ t = t0 ++ panicEnd u p v
              /\ Forall (fun e => isFailure e = false) t0
              /\ Download E p dir u (workers f) (zipit f) (override f) w
                 = (DlPanic v, w'))
        \/ (r = Exit 2 /\ length urls < i + length hs
            /\ Forall (fun e => isFailure e = false) t)).
Proof.
  induction hs as [|h hs IH]; intros i s r s'.
  - intros [= <- <-]. exists [], 0. split; [by rewrite app_nil_r |].
    split; [constructor |]. split; [done |]. split; [done |].
    split; [intros j h Hj; lia |]. left. done.
  - simpl. unfold Proc.bind.
    destruct (main_download E f pm dir urls i h s) as [r1 s1] eqn:Hbody.
    apply main_download_body in Hbody as (t1 & Ht1 & Hq1 & Hcase).
    destruct Hcase as [(-> & Hf1 & (u & Hu & Hr1) & p0 & w0 & Hsel0)
                      | [(-> & Hr1 & err & w1 & -> & Hsel)
                      | [(-> & u & p & v & t0 & w1 & w2 & Hu & Hr1 & -> & Hf0 & Hdl & w0 & Hsel0)
                      | (-> & Hf1 & Hu & Hr1)]]].
    + intros Hrest.
      apply IH in Hrest as (t2 & n & Ht2 & Hq2 & Hr2 & Hn & Hok & Hcase).
      exists (t1 ++ t2), (S n). split; [by rewrite Ht2, Ht1, app_assoc |].
      split; [by apply Forall_app |].
      split. { rewrite runs_app, Hr1, Hr2. by rewrite (drop_S _ _ _ Hu). }
      split; [simpl; lia |].
      split.
      { intros [|j] h' Hj Hh'; simpl in Hh'.
        - injection Hh' as <-. eauto.
        - apply (Hok j h'); [lia | done]. }
      destruct Hcase as [(-> & -> & Hf2)
                        | [(-> & h' & err & t0 & w1 & w2 & Hh' & -> & Hf0 & Hsel)
                        | [(-> & u' & p & v & t0 & w1 & w2 & Hpos & Hu' & -> & Hf0 & Hdl)
                        | (-> & Hlen & Hf2)]]].
      * left. split; [done |]. split; [done |]. by apply Forall_app.
      * right; left. split; [done |]. exists h', err, (t1 ++ t0), w1, w2.
        split; [done |]. split; [by rewrite app_assoc |].
        split; [by apply Forall_app | done].
      * right; right; left. split; [done |].
        exists u', p, v, (t1 ++ t0), w1, w2.
        split; [lia |]. split.
        { by replace (i + S n - 1) with (S i + n - 1) by lia. }
        split; [by rewrite app_assoc |]. split; [by apply Forall_app | done].
      * right; right; right. split; [done |]. split; [simpl; lia | by apply Forall_app].
    + intros [= <- <-]. exists (selectEnd h err), 0.
      split; [done |]. split; [done |]. split; [done |]. split; [simpl; lia |].
      split; [intros j h' Hj; lia |].
      right; left. split; [done |]. by exists h, err, [], (Proc.world s), w1.
    + intros [= <- <-]. exists (t0 ++ panicEnd u p v), 1.
      split; [done |]. split; [done |].
      split. { by rewrite Hr1, (drop_S _ _ _ Hu). }
      split; [simpl; lia |].
      split.
      { intros [|j] h' Hj Hh'; [| lia]. simpl in Hh'. injection Hh' as <-.
        eauto. }
      right; right; left. split; [done |]. exists u, p, v, t0, w1, w2.
      split; [lia |]. split; [| done].
      by replace (i + 1 - 1) with i by lia.
    + intros [= <- <-]. exists t1, 0.
      split; [done |]. split; [done |]. split; [done |]. split; [simpl; lia |].
      split; [intros j h' Hj; lia |].
      right; right; right. split; [done |].
      apply lookup_ge_None in Hu. split; [simpl; lia | done].
Qed.

End CliFacts.

(** ** The modelled plugin manager *)

Section PluginManagerFacts.

Context {Console D : Type}.
Variable prompt : OptionDescriptor -> Console -> string * Console.
Variable choose : list Handler -> Console -> Z * Console.
Implicit Types w : World Console D.

Lemma FindHandlers_length (pm : list Handler) (urls : list string) :
  length (PluginManager.FindHandlers pm urls) = length urls.
Proof. unfold PluginManager.FindHandlers. apply length_map. Qed.


Lemma FindHandlers_registry (pm : list Handler) (urls : list string) cands h :
  In cands (PluginManager.FindHandlers pm urls) -> In h cands -> In h pm.
Proof.
  unfold PluginManager.FindHandlers. rewrite in_map_iff.
  intros (url & <- & _) Hh. by apply filter_In in Hh as [? _].
Qed.


Lemma SelectPlugin_candidate pm cands w p w' :
  PluginManager.SelectPlugin choose pm cands w = (inl p, w') ->
  In p cands /\ bundles w' = bundles w /\ outside w' = outside w.
Proof.
  unfold PluginManager.SelectPlugin.
  destruct cands as [|h [|h' cands]]; [done | |].
  - intros [= <- <-]. split; [by left | done].
  - destruct (choose _ _) as [i c'].
    destruct (0 <=? i)%Z; [| done].
    destruct ((h :: h' :: cands) !! Z.to_nat i) as [q|] eqn:Hq; [| done].
    intros [= <- <-]. split; [| done].
    apply list_elem_of_In. by eapply list_elem_of_lookup_2.
Qed.

Lemma SelectPlugin_bundles pm cands w res w' :
  PluginManager.SelectPlugin choose pm cands w = (res, w') ->
  bundles w' = bundles w.
Proof.
  unfold PluginManager.SelectPlugin.
  destruct cands as [|h [|h' cands]]; [by intros [= <- <-] ..|].
  destruct (choose _ _) as [i c'].
  destruct (if (0 <=? i)%Z then _ else _); by intros [= <- <-].
Qed.

Lemma negotiate_resolved overrides useDefaults noPrompt ds : forall b c b' c',
  PluginManager.negotiate prompt overrides useDefaults noPrompt ds b c
  = (inl b', c') ->
  (forall k, is_Some (b !! k) -> is_Some (b' !! k))
  /\ (forall d, In d ds -> required d = true -> is_Some (b' !! key d)).
Proof.
  induction ds as [|d ds IH]; intros b c b' c'.
  - intros [= <- <-]. done.
  - simpl.
    destruct (PluginManager.negotiateOption _ _ _ _ d c) as [[[v|]|e] c1] eqn:Hd;
      [| | done]; intros Hrest; apply IH in Hrest as [Hkeep Hreq].
    + split.
      * intros k Hk. apply Hkeep.
        destruct (decide (key d = k)) as [<-|Hne].
        -- rewrite lookup_insert_eq. eauto.
        -- by rewrite lookup_insert_ne.
      * intros d' [<- | Hin] Hr; [| by apply Hreq].
        apply Hkeep. rewrite lookup_insert_eq. eauto.
    + split; [done |].
      intros d' [<- | Hin] Hr; [| by apply Hreq].
      exfalso. revert Hd. unfold PluginManager.negotiateOption.
      destruct (overrides !! key d); [done |].
      destruct (if useDefaults then default_ d else None); [done |].
      rewrite Hr. destruct noPrompt; [done |]. by destruct (prompt d c).
Qed.

End PluginManagerFacts.

Section Resolution.

Context {Console D : Type}.
Variable registry : list Handler.
Variable prompt : OptionDescriptor -> Console -> string * Console.
Variable choose : list Handler -> Console -> Z * Console.
Variable runPool :
  Handler -> option Bundle -> string -> string -> Z -> bool ->
  D -> DownloadResult * D.
Hypothesis registry_names : NoDup (map name registry).
Implicit Types w : World Console D.
Implicit Types s : Proc.State Handler (World Console D).

Local Abbreviation E := (specEnv registry prompt choose runPool).

Lemma registry_identity (h h' : Handler) :
  In h registry -> In h' registry -> name h = name h' -> h = h'.
Proof using registry_names.
  revert registry_names.
  induction registry as [|a l IH]; [done |].
  simpl. intros Hnd. apply NoDup_cons in Hnd as [Ha Hnd].
  intros [<- | Hh] [<- | Hh'] Heq; [done | | | by apply IH].
  - exfalso. apply Ha. rewrite Heq. apply list_elem_of_In, in_map, Hh'.
  - exfalso. apply Ha. rewrite <- Heq. apply list_elem_of_In, in_map, Hh.
Qed.

(** Binding a resolved bundle to a handler of the registry keeps every
  resolved handler of the registry resolved. *)
Lemma resolved_insert w (h0 : Handler) (b : Bundle) (c : Console)
  (h : Handler) :
  In h0 registry -> resolvedBundle h0 b -> In h registry ->
  resolved w h \/ h = h0 ->
  resolved (mkWorld c (<[name h0 := b]> (bundles w)) (outside w)) h.
Proof using registry_names.
  intros H0 Hb Hh Hcase. unfold resolved. simpl.
  destruct (decide (name h0 = name h)) as [Heq | Hne].
  - assert (h = h0) as -> by (by apply registry_identity).
    exists b. by rewrite lookup_insert_eq.
  - rewrite lookup_insert_ne by done.
    destruct Hcase as [Hres | ->]; [done | by destruct Hne].
Qed.

Lemma SetOptions_resolved pm overrides useDefaults noPrompt cands :
  forall w w' (P : Handler -> Prop),
    (forall h, In h cands -> In h registry) ->
    (forall h, In h registry -> P h -> resolved w h) ->
    PluginManager.SetOptions prompt pm cands overrides useDefaults noPrompt w
    = (None, w') ->
    forall h, In h registry -> P h \/ In h cands -> resolved w' h.
Proof using registry_names.
  induction cands as [|h0 cands IH]; intros w w' P Hsub HP.
  - intros [= <-] h Hh [Hp | []]. by apply HP.
  - simpl.
    destruct (PluginManager.negotiate _ _ _ _ _ _ _) as [[b|e] c'] eqn:Hneg;
      [| done].
    apply negotiate_resolved in Hneg as [_ Hb].
    intros Hrest h Hh Hcase.
    apply (IH _ _ (fun h => P h \/ h = h0)) with (h := h) in Hrest; try done.
    + intros h' Hh'. apply Hsub. by right.
    + intros h' Hh' Hcase'. apply resolved_insert; try done.
      * apply Hsub. by left.
      * destruct Hcase' as [Hp | ->]; [left; by apply HP | by right].
    + destruct Hcase as [Hp | [<- | Hin]]; auto.
Qed.

Lemma main_negotiate_spec (f : Flags) pm urls i cands s s' :
  main_negotiate E f pm urls i cands s = (Ret tt, s') ->
  PluginManager.SetOptions prompt pm cands (OptionsFlag.table (options f))
    (defaults f) (noprompt f) (Proc.world s)
  = (None, Proc.world s').
Proof.
  unfold main_negotiate, Proc.bind, Proc.call, Proc.emit, Proc.logf,
    Proc.fatalf, Proc.index, Proc.exit, Proc.ret, Proc.bind. simpl.
  destruct (length cands =? 0)%nat; [destruct (urls !! i) |]; simpl;
    try done;
    destruct (PluginManager.SetOptions _ _ _ _ _ _ _) as [[e|] w1]; simpl;
    by intros [= <-].
Qed.

Lemma negotiate_loop_resolved (f : Flags) pm urls hs :
  forall i s s' (P : Handler -> Prop),
    (forall cands h, In cands hs -> In h cands -> In h registry) ->
    (forall h, In h registry -> P h -> resolved (Proc.world s) h) ->
    Proc.forRange (main_negotiate E f pm urls) i hs s = (Ret tt, s') ->
    forall h, In h registry ->
              P h \/ (exists cands, In cands hs /\ In h cands) ->
              resolved (Proc.world s') h.
Proof using registry_names.
  induction hs as [|cands hs IH]; intros i s s' P Hsub HP.
  - intros [= <-] h Hh [Hp | (? & [] & _)]. by apply HP.
  - simpl. unfold Proc.bind.
    destruct (main_negotiate E f pm urls i cands s) as [[[]|code] s1] eqn:Hbody;
      [| done].
    apply main_negotiate_spec in Hbody.
    intros Hrest h Hh Hcase.
    apply (IH _ _ _ (fun h => P h \/ In h cands)) with (h := h) in Hrest;
      try done.
    + intros cands' h' Hc. apply Hsub. by right.
    + intros h' Hh'. eapply SetOptions_resolved; try done.
      intros h'' Hin. eapply Hsub; [by left | done].
    + destruct Hcase as [Hp | (cands' & [<- | Hin] & Hc)]; eauto.
Qed.

Lemma main_download_spec_bundles (f : Flags) pm dir urls i cands s r s' :
  main_download E f pm dir urls i cands s = (r, s') ->
  bundles (Proc.world s') = bundles (Proc.world s).
Proof.
  unfold main_download, startDownloading, startDownloading_deferred,
    Proc.bind, Proc.call, Proc.emit, Proc.logf,
    Proc.fatalf, Proc.index, Proc.exit, Proc.ret, Proc.bind. simpl.
  destruct (PluginManager.SelectPlugin choose pm cands (Proc.world s))
    as [[p|err] w] eqn:Hsel; simpl;
    apply SelectPlugin_bundles in Hsel; [| by intros [= <- <-]].
  unfold DownloadManager.Download.
  destruct (1 <? length urls)%nat; destruct (urls !! i) as [u|]; simpl;
    try (by intros [= <- <-]);
    destruct (runPool _ _ _ _ _ _ _) as [[dls|err|v] d']; simpl;
    by intros [= <- <-].
Qed.

Lemma download_loop_bundles (f : Flags) pm dir urls hs : forall i s r s',
  Proc.forRange (main_download E f pm dir urls) i hs s = (r, s') ->
  bundles (Proc.world s') = bundles (Proc.world s).
Proof.
  induction hs as [|cands hs IH]; intros i s r s'.
  - by intros [= <- <-].
  - simpl. unfold Proc.bind.
    destruct (main_download E f pm dir urls i cands s) as [[[]|code] s1] eqn:Hbody;
      apply main_download_spec_bundles in Hbody.
    + intros Hrest. apply IH in Hrest. congruence.
    + intros [= <- <-]. done.
Qed.

End Resolution.

(** ** [main] *)

Section MainFacts.

Context {Plugin W : Type}.
Variable E : Env Plugin W.
Variable PathSeparator : ascii.
Variable version : string.
Implicit Types s : Proc.State Plugin W.
Implicit Types t : list (Event Plugin).

Lemma main_cases (f : Flags) s r s' :
  main E PathSeparator version f s = (r, s') ->
  (r = Exit 0
   /\ (printVersion f = true \/ args f = [])
   /\ exists e, Proc.trace s' = Proc.trace s ++ [e]
                /\ isNegotiation e = false
                /\ isSelectionOrDownload e = false)
  \/ (printVersion f = false /\ args f <> []
      /\ exists r1 s1,
          Proc.forRange (main_negotiate E f (Plugins E) (args f)) 0
            (FindHandlers E (Plugins E) (args f)) s = (r1, s1)
          /\ ((r1 = Ret tt
               /\ Proc.forRange
                    (main_download E f (Plugins E)
                       (normalizeDir PathSeparator (dldir f)) (args f)) 0
                    (FindHandlers E (Plugins E) (args f)) s1 = (r, s'))
              \/ (r1 = r /\ r <> Ret tt /\ s1 = s'))).
Proof.
  unfold main. destruct (printVersion f).
  { intros [= <- <-]. left. split; [done |]. split; [by left |]. by eexists. }
  destruct (args f) as [|u urls] eqn:Hargs.
  { intros [= <- <-]. left. split; [done |]. split; [by right |]. by eexists. }
  cbn [length Nat.eqb]. unfold Proc.bind at 1.
  destruct (Proc.forRange _ 0 _ s) as [[[]|code] s1] eqn:Hneg; intros Hdl.
  - right. split; [done |]. split; [done |]. exists (Ret tt), s1. eauto.
  - injection Hdl as <- <-. right. split; [done |]. split; [done |].
    exists (Exit code), s1. split; [done |]. right. done.
Qed.

Lemma In_quiet_failure t (e : Event Plugin) :
  Forall (fun e => isFailure e = false) t -> In e t -> isFailure e = true ->
  False.
Proof.
  intros Hq Hin He. rewrite List.Forall_forall in Hq.
  specialize (Hq e Hin). congruence.
Qed.

Lemma In_quiet_download t (e : Event Plugin) :
  Forall (fun e => isSelectionOrDownload e = false) t -> In e t ->
  isSelectionOrDownload e = true -> False.
Proof.
  intros Hq Hin He. rewrite List.Forall_forall in Hq.
  specialize (Hq e Hin). congruence.
Qed.

Lemma In_quiet_negotiation t (e : Event Plugin) :
  Forall (fun e => isNegotiation e = false) t -> In e t ->
  isNegotiation e = true -> False.
Proof.
  intros Hq Hin He. rewrite List.Forall_forall in Hq.
  specialize (Hq e Hin). congruence.
Qed.

(** The trace that [main] adds, in its two phases. *)
Lemma main_phases (f : Flags) s r s' :
  main E PathSeparator version f s = (r, s') ->
  exists t1 t2 n,
    Proc.trace s' = Proc.trace s ++ t1 ++ t2
    /\ Forall (fun e => isSelectionOrDownload e = false) t1
    /\ Forall (fun e => isNegotiation e = false) t2
    /\ runs t2 = take n (args f)
    /\ ((r <> Ret tt /\ t2 = []
         /\ Forall (fun e => isNegotiation e = false) t1)
        \/ (r = Exit 1 /\ t2 = [] /\ exists h e t0,
              t1 = t0 ++ negotiationEnd h e
              /\ Forall (fun x => x.2 = None) (negotiations t0))
        \/ (r = Exit 2 /\ t2 = []
            /\ Forall (fun x => x.2 = None) (negotiations t1))
        \/ (negotiations t1
            = map (fun h => (h, None)) (FindHandlers E (Plugins E) (args f))
            /\ ((r = Ret tt /\ Forall (fun e => isFailure e = false) t2)
                \/ (r = Exit 1 /\ exists h err t0 w w',
                      FindHandlers E (Plugins E) (args f) !! n = Some h
                      /\ t2 = t0 ++ selectEnd h err
                      /\ Forall (fun e => isFailure e = false) t0
                      /\ SelectPlugin E (Plugins E) h w = (inr err, w'))
                \/ (r = Exit 1 /\ exists u p v t0 w w',
                      0 < n /\ args f !! (n - 1) = Some u
                      /\ t2 = t0 ++ panicEnd u p v
                      /\ Forall (fun e => isFailure e = false) t0
                      /\ Download E p (normalizeDir PathSeparator (dldir f)) u
                           (workers f) (zipit f) (override f) w
                         = (DlPanic v, w'))
                \/ (r = Exit 2
                    /\ Forall (fun e => isFailure e = false) t2)))).
Proof.
  intros Hmain. apply main_cases in Hmain.
  destruct Hmain as [(-> & _ & e & Ht & Hn & Hs)
                    | (Hv & Hargs & r1 & s1 & Hneg & Hcase)].
  { exists [e], [], 0. rewrite app_nil_r. split; [done |].
    split; [by constructor |]. split; [constructor |]. split; [done |].
    left. split; [done |]. split; [done |]. by constructor. }
  apply negotiate_loop in Hneg as (t1 & Ht1 & Hq1 & Hneg).
  destruct Hcase as [(-> & Hdl) | (-> & Hr & ->)].
  - destruct Hneg as [(_ & Hn1 & _) | [(? & _) | (? & _)]]; [| done | done].
    apply download_loop in Hdl as (t2 & n & Ht2 & Hq2 & Hr2 & Hn & _ & Hdl).
    exists t1, t2, n. split; [by rewrite Ht2, Ht1, app_assoc |].
    split; [done |]. split; [done |]. split; [done |].
    right; right; right. split; [done |].
    destruct Hdl as [(-> & _ & Hf) | [(-> & Hsel) | [(-> & Hpanic) | (-> & _ & Hf)]]];
      eauto 10.
  - exists t1, [], 0. rewrite app_nil_r. split; [done |]. split; [done |].
    split; [constructor |]. split; [done |].
    destruct Hneg as [(-> & _) | [(-> & h & e & t0 & _ & _ & _ & -> & Hn0 & _)
                                 | (-> & _ & Hn1)]]; [done | |].
    + right; left. split; [done |]. split; [done |]. by exists h, e, t0.
    + right; right; left. done.
Qed.


Lemma selection_failure_fatal (f : Flags) s r s' t h err :
  main E PathSeparator version f s = (r, s') ->
  Proc.trace s' = Proc.trace s ++ t ->
  In (SelectPluginCall h (inr err)) t ->
  r = Exit 1
  /\ exists t0 n w w',
      t = t0 ++ selectEnd h err
      /\ FindHandlers E (Plugins E) (args f) !! n = Some h
      /\ runs t = take n (args f)
      /\ SelectPlugin E (Plugins E) h w = (inr err, w').
Proof.
  intros Hmain Ht Hin.
  apply main_phases in Hmain as (t1 & t2 & n & Ht' & Hq1 & Hq2 & Hr2 & Hcase).
  rewrite Ht in Ht'. apply app_inv_head in Ht'. subst t.
  apply in_app_or in Hin as [Hin | Hin];
    [by destruct (In_quiet_download _ _ Hq1 Hin) |].
  destruct Hcase as [(_ & -> & _) | [(_ & -> & _) | [(_ & -> & _) | (_ & Hcase)]]];
    [done .. |].
  destruct Hcase as [(-> & Hf) | [(-> & h' & err' & t0 & w & w' & Hh & -> & Hf & Hsel)
                    | [(-> & u & p & v & t0 & w & w' & _ & _ & -> & Hf & _)
                    | (-> & Hf)]]].
  - by destruct (In_quiet_failure _ _ Hf Hin).
  - apply in_app_or in Hin as [Hin | Hin];
      [by destruct (In_quiet_failure _ _ Hf Hin) |].
    destruct Hin as [[= <- <-] | [[=] | []]].
    split; [done |]. exists (t1 ++ t0), n, w, w'.
    split; [by rewrite app_assoc |]. split; [done |]. split; [| done].
    rewrite runs_app, Hr2. by rewrite (runs_quiet _ Hq1).
  - apply in_app_or in Hin as [Hin | Hin];
      [by destruct (In_quiet_failure _ _ Hf Hin) |].
    destruct Hin as [[=] | [[=] | [[=] | [[=] | []]]]].
  - by destruct (In_quiet_failure _ _ Hf Hin).
Qed.

(** C2 (amended). A panic inside a download run is caught at the top
  boundary of that run: the reporter is stopped, the line released, and the
  value is logged with [log.Fatalf], which ends the process with status 1.
  The trace ends there: the runs of the invocation are those of the URLs up
  to and including the panicking one, and no URL after it is processed. *)
Theorem panic_ends_process (f : Flags) s r s' t u p v :
  main E PathSeparator version f s = (r, s') ->
  Proc.trace s' = Proc.trace s ++ t ->
  In (DownloadCall u p (DlPanic v)) t ->
  r = Exit 1
  /\ exists t0 n,
      t = t0 ++ panicEnd u p v
      /\ Forall (fun e => isFailure e = false) t0
      /\ args f !! n = Some u
      /\ runs t = take (S n) (args f).
Proof.
  intros Hmain Ht Hin.
  apply main_phases in Hmain as (t1 & t2 & n & Ht' & Hq1 & Hq2 & Hr2 & Hcase).
  rewrite Ht in Ht'. apply app_inv_head in Ht'. subst t.
  apply in_app_or in Hin as [Hin | Hin];
    [by destruct (In_quiet_download _ _ Hq1 Hin) |].
  destruct Hcase as [(_ & -> & _) | [(_ & -> & _) | [(_ & -> & _) | (_ & Hcase)]]];
    [done .. |].
  destruct Hcase as [(-> & Hf) | [(-> & h' & err' & t0 & w & w' & Hh & -> & Hf & Hsel)
                    | [(-> & u' & p' & v' & t0 & w & w' & Hn & Hu & -> & Hf & _)
                    | (-> & Hf)]]].
  - by destruct (In_quiet_failure _ _ Hf Hin).
  - apply in_app_or in Hin as [Hin | Hin];
      [by destruct (In_quiet_failure _ _ Hf Hin) |].
    destruct Hin as [[=] | [[=] | []]].
  - apply in_app_or in Hin as [Hin | Hin];
      [by destruct (In_quiet_failure _ _ Hf Hin) |].
    destruct Hin as [[= <- <- <-] | [[=] | [[=] | [[=] | []]]]].
    split; [done |]. exists (t1 ++ t0), (n - 1).
    split; [by rewrite app_assoc |]. split.
    { apply Forall_app. split; [| done].
      eapply Forall_impl; [exact Hq1 |]. by intros []. }
    split; [done |].
    rewrite runs_app, Hr2, (runs_quiet _ Hq1). simpl.
    by replace (S (n - 1)) with n by lia.
  - by destruct (In_quiet_failure _ _ Hf Hin).
Qed.

End MainFacts.

Section DownloadOrigin.

Context {Plugin W : Type}.
Variable E : Env Plugin W.
Implicit Types s : Proc.State Plugin W.
Implicit Types t : list (Event Plugin).

(** Every [Download] call of the second loop is made with a plugin that
  [SelectPlugin] returned for one of the candidate sets. *)
Lemma main_download_body_origin (f : Flags) pm dir urls i h s r s' t u p res :
  main_download E f pm dir urls i h s = (r, s') ->
  Proc.trace s' = Proc.trace s ++ t ->
  In (DownloadCall u p res) t ->
  exists w', SelectPlugin E pm h (Proc.world s) = (inl p, w').
Proof.
  unfold main_download, startDownloading, startDownloading_deferred,
    Proc.bind, Proc.call, Proc.emit, Proc.logf,
    Proc.fatalf, Proc.index, Proc.exit, Proc.ret, Proc.bind.
  destruct (SelectPlugin E pm h (Proc.world s)) as [[q|err] w] eqn:Hsel; simpl.
  2: { intros [= <- <-]. simpl. rewrite <- !app_assoc. intros Ht.
       apply app_inv_head in Ht as <-. simpl.
       intros [[=] | [[=] | []]]. }
  destruct (urls !! i) as [u0|] eqn:Hu; simpl.
  2: { destruct (1 <? length urls)%nat; simpl; intros [= <- <-]; simpl;
       rewrite <- ?app_assoc; intros Ht; apply app_inv_head in Ht as <-; simpl;
       intros Hin; repeat (destruct Hin as [[=] | Hin]); done. }
  destruct (1 <? length urls)%nat; simpl;
    destruct (Download E q dir u0 _ _ _ w) as [[dls|err|v] w'] eqn:Hdl; simpl;
    intros [= <- <-]; simpl;
    rewrite <- ?app_assoc; intros Ht; apply app_inv_head in Ht as <-; simpl;
    intros Hin;
    repeat (destruct Hin as [Hin | Hin]; [try discriminate Hin |]);
    try done; injection Hin as <- <- <-; by exists w.
Qed.

Lemma download_loop_origin (f : Flags) pm dir urls hs :
  forall i s r s' t u p res,
    Proc.forRange (main_download E f pm dir urls) i hs s = (r, s') ->
    Proc.trace s' = Proc.trace s ++ t ->
    In (DownloadCall u p res) t ->
    exists h w w', In h hs /\ SelectPlugin E pm h w = (inl p, w').
Proof.
  induction hs as [|h hs IH]; intros i s r s' t u p res.
  - intros [= <- <-] Ht. rewrite <- (app_nil_r (Proc.trace s)) in Ht at 1.
    by apply app_inv_head in Ht as <-.
  - simpl. unfold Proc.bind.
    destruct (main_download E f pm dir urls i h s) as [r1 s1] eqn:Hbody.
    destruct (main_download_body _ _ _ _ _ _ _ _ _ _ Hbody) as (t1 & Ht1 & _).
    assert (forall t2, Proc.trace s' = Proc.trace s1 ++ t2 ->
                       Proc.trace s' = Proc.trace s ++ t -> In (DownloadCall u p res) t ->
                       In (DownloadCall u p res) t1 \/ In (DownloadCall u p res) t2)
      as Hsplit.
    { intros t2 Ht2 Ht Hin. rewrite Ht2, Ht1, <- app_assoc in Ht.
      apply app_inv_head in Ht as <-. by apply in_app_or. }
    destruct r1 as [[]|code].
    + intros Hrest Ht Hin.
      destruct (download_loop _ _ _ _ _ _ _ _ _ _ Hrest) as (t2 & n & Ht2 & _).
      destruct (Hsplit t2 Ht2 Ht Hin) as [Hin1 | Hin2].
      * destruct (main_download_body_origin _ _ _ _ _ _ _ _ _ _ _ _ _ Hbody Ht1 Hin1)
          as (w' & Hsel).
        exists h, (Proc.world s), w'. split; [by left | done].
      * destruct (IH _ _ _ _ _ _ _ _ Hrest Ht2 Hin2) as (h' & w & w' & Hh' & Hsel).
        exists h', w, w'. split; [by right | done].
    + intros [= <- <-] Ht Hin.
      rewrite Ht1 in Ht. apply app_inv_head in Ht as <-.
      destruct (main_download_body_origin _ _ _ _ _ _ _ _ _ _ _ _ _ Hbody Ht1 Hin)
        as (w' & Hsel).
      exists h, (Proc.world s), w'. split; [by left | done].
Qed.

End DownloadOrigin.

(** ** [main] over the modelled collaborators *)

Section SpecMain.

Context {Console D : Type}.
Variable registry : list Handler.
Variable prompt : OptionDescriptor -> Console -> string * Console.
Variable choose : list Handler -> Console -> Z * Console.
Variable runPool :
  Handler -> option Bundle -> string -> string -> Z -> bool ->
  D -> DownloadResult * D.
Variable PathSeparator : ascii.
Variable version : string.
Implicit Types w : World Console D.
Implicit Types s : Proc.State Handler (World Console D).
Implicit Types t : list (Event Handler).

Local Abbreviation E := (specEnv registry prompt choose runPool).

Lemma SelectPlugin_failure pm cands w err w' :
  PluginManager.SelectPlugin choose pm cands w = (inr err, w') ->
  (cands = [] /\ err = ErrNoHandler)
  \/ (2 <= length cands /\ err = ErrInvalidChoice
      /\ ((choose cands (console w)).1 < 0
          \/ Z.of_nat (length cands) <= (choose cands (console w)).1)%Z).
Proof.
  unfold PluginManager.SelectPlugin.
  destruct cands as [|h [|h' cands]]; [intros [= <- <-]; by left | done |].
  destruct (choose _ _) as [i c'] eqn:Hch. cbn [fst].
  destruct (0 <=? i)%Z eqn:Hi.
  - destruct ((h :: h' :: cands) !! Z.to_nat i) as [q|] eqn:Hq; [done |].
    intros [= <- <-]. right. split; [simpl; lia |]. split; [done |].
    right. apply lookup_ge_None in Hq. apply Z.leb_le in Hi. lia.
  - intros [= <- <-]. right. split; [simpl; lia |]. split; [done |].
    left. apply Z.leb_gt in Hi. lia.
Qed.

(** C3 (amended). A selection fails either because the candidate set is
  empty (the "no handler" error) or because the index chosen among several
  candidates is out of range (the input error). [main] reports either with
  [log.Fatal]: the process ends with status 1 at that URL. The URLs before
  it have been run, the failing URL and the URLs after it are not run. *)
Theorem selection_failure_ends_process (f : Flags) s r s' t h err :
  main E PathSeparator version f s = (r, s') ->
  Proc.trace s' = Proc.trace s ++ t ->
  In (SelectPluginCall h (inr err)) t ->
  r = Exit 1
  /\ ((h = [] /\ err = ErrNoHandler)
      \/ (2 <= length h /\ err = ErrInvalidChoice))
  /\ exists t0 n,
      t = t0 ++ selectEnd h err
      /\ PluginManager.FindHandlers registry (args f) !! n = Some h
      /\ n < length (args f)
      /\ runs t = take n (args f).
Proof.
  intros Hmain Ht Hin.
  destruct (selection_failure_fatal E _ _ _ _ _ _ _ _ _ Hmain Ht Hin)
    as (-> & t0 & n & w & w' & -> & Hn & Hruns & Hsel).
  split; [done |]. split.
  - apply SelectPlugin_failure in Hsel as [? | (? & ? & _)]; auto.
  - exists t0, n. split; [done |]. split; [done |]. split; [| done].
    apply lookup_lt_Some in Hn. simpl in Hn.
    by rewrite FindHandlers_length in Hn.
Qed.



(** C4. Negotiation runs over the candidate sets of all URLs before any
  selection or download: the trace of [main] is a negotiation phase [t1]
  followed by a selection and download phase [t2]. If any [SetOptions] call
  fails, the process ends with status 1 right there, before the second
  phase. If the second phase is entered, [SetOptions] has succeeded on the
  candidate set of every URL, every candidate of every URL has a fully
  resolved bundle at that point, the second phase never changes a bundle,
  and every [Download] call is made with such a candidate. *)
Theorem negotiation_precedes_downloads (f : Flags) s r s' :
  NoDup (map name registry) ->
  main E PathSeparator version f s = (r, s') ->
  exists t1 t2 s1,
    Proc.trace s' = Proc.trace s ++ t1 ++ t2
    /\ Proc.trace s1 = Proc.trace s ++ t1
    /\ Forall (fun e => isSelectionOrDownload e = false) t1
    /\ Forall (fun e => isNegotiation e = false) t2
    /\ (forall h e,
          In (SetOptionsCall h (Some e)) (t1 ++ t2) ->
          r = Exit 1 /\ t2 = [] /\ exists t0, t1 = t0 ++ negotiationEnd h e)
    /\ (t2 <> [] ->
        negotiations t1
        = map (fun h => (h, None)) (PluginManager.FindHandlers registry (args f))
        /\ (forall cands h,
              In cands (PluginManager.FindHandlers registry (args f)) ->
              In h cands -> resolved (Proc.world s1) h)
        /\ bundles (Proc.world s') = bundles (Proc.world s1)
        /\ (forall u p res,
              In (DownloadCall u p res) t2 -> resolved (Proc.world s1) p)).
Proof.
  intros Hnd Hmain. apply main_cases in Hmain.
  destruct Hmain as [(-> & _ & e & Ht & Hn & Hs)
                    | (_ & Hargs & r1 & s1 & Hneg & Hcase)].
  { exists [e], [], s'. rewrite app_nil_r. split; [done |]. split; [done |].
    split; [by constructor |]. split; [constructor |]. split; [| done].
    intros h e' [Heq | []]. by rewrite Heq in Hn. }
  simpl in Hneg, Hcase.
  destruct (negotiate_loop _ _ _ _ _ _ _ _ _ Hneg) as (t1 & Ht1 & Hq1 & Hshape).
  assert (Hfail : forall h e t2,
             In (SetOptionsCall h (Some e)) (t1 ++ t2) ->
             Forall (fun e => isNegotiation e = false) t2 ->
             r1 = Exit 1 /\ exists t0, t1 = t0 ++ negotiationEnd h e).
  { intros h e t2 Hin Hq2. apply in_app_or in Hin as [Hin | Hin];
      [| by destruct (In_quiet_negotiation _ _ Hq2 Hin)].
    destruct Hshape as [(_ & Hn1 & _)
                       | [(-> & h' & e' & t0 & _ & _ & _ & -> & Hn0 & _)
                       | (_ & _ & Hn1)]].
    - apply negotiations_In in Hin. rewrite Hn1 in Hin.
      apply in_map_iff in Hin as (? & [=] & _).
    - split; [done |]. apply in_app_or in Hin as [Hin | Hin].
      + apply negotiations_In in Hin. rewrite List.Forall_forall in Hn0.
        by specialize (Hn0 _ Hin).
      + destruct Hin as [[= <- <-] | [[=] | []]]. by exists t0.
    - apply negotiations_In in Hin. rewrite List.Forall_forall in Hn1.
      by specialize (Hn1 _ Hin). }
  destruct Hcase as [(-> & Hdl) | (-> & Hr & ->)].
  - destruct (download_loop _ _ _ _ _ _ _ _ _ _ Hdl) as (t2 & n & Ht2 & Hq2 & _).
    exists t1, t2, s1. split; [by rewrite Ht2, Ht1, app_assoc |].
    split; [done |]. split; [done |]. split; [done |]. split.
    { intros h e Hin. by destruct (Hfail h e t2 Hin Hq2) as [? _]. }
    intros _.
    destruct Hshape as [(_ & Hn1 & _) | [(? & _) | (? & _)]]; [| done | done].
    split; [done |].
    assert (Hres : forall cands h,
               In cands (PluginManager.FindHandlers registry (args f)) ->
               In h cands -> resolved (Proc.world s1) h).
    { intros cands h Hc Hh.
      eapply (negotiate_loop_resolved registry prompt choose runPool Hnd
                _ _ _ _ _ _ _ (fun _ => False)); try exact Hneg.
      - intros cands' h'. apply FindHandlers_registry.
      - done.
      - by eapply FindHandlers_registry.
      - right. eauto. }
    split; [done |]. split.
    { eapply (download_loop_bundles registry prompt choose runPool). exact Hdl. }
    intros u p res Hin.
    destruct (download_loop_origin _ _ _ _ _ _ _ _ _ _ _ _ _ _ Hdl Ht2 Hin)
      as (h & w & w' & Hh & Hsel).
    apply (SelectPlugin_candidate choose registry) in Hsel as [Hp _]. eauto.
  - exists t1, [], s'. rewrite app_nil_r. split; [done |]. split; [done |].
    split; [done |]. split; [constructor |]. split; [| done].
    intros h e Hin.
    destruct (Hfail h e [] ltac:(by rewrite app_nil_r) ltac:(constructor))
      as [_ Ht0].
    split; [| done].
    destruct Hshape as [(-> & _) | [(-> & _) | (-> & _ & Hn1)]]; [done | done |].
    apply negotiations_In in Hin. rewrite List.Forall_forall in Hn1.
    by specialize (Hn1 _ Hin).
Qed.

End SpecMain.

(** ** The option negotiator *)

Section Negotiator.

Context {Console D : Type}.
Variable prompt : OptionDescriptor -> Console -> string * Console.
Implicit Types w : World Console D.
Implicit Types d : OptionDescriptor.
Implicit Types b : Bundle.

Lemma negotiateOption_unsettled overrides useDefaults d (c : Console) :
  unsettled overrides useDefaults d ->
  PluginManager.negotiateOption prompt overrides useDefaults true d c
  = (inr (ErrMissingOption (key d)), c).
Proof.
  intros (Hreq & Hov & Hdef). unfold PluginManager.negotiateOption.
  rewrite Hov, Hreq. by destruct Hdef as [-> | ->]; [| destruct useDefaults].
Qed.

Lemma negotiateOption_fails overrides useDefaults noPrompt d (c c' : Console) e :
  PluginManager.negotiateOption prompt overrides useDefaults noPrompt d c
  = (inr e, c') ->
  noPrompt = true /\ unsettled overrides useDefaults d
  /\ e = ErrMissingOption (key d) /\ c' = c.
Proof.
  unfold PluginManager.negotiateOption, unsettled.
  destruct (overrides !! key d) eqn:Hov; [done |].
  destruct (if useDefaults then default_ d else None) eqn:Hdef; [done |].
  destruct (required d); [| done].
  destruct noPrompt; [| by destruct (prompt d c)].
  intros [= <- <-]. repeat split; try done.
  destruct useDefaults; auto.
Qed.

(** Without prompting, negotiation never touches the console. *)
Lemma negotiateOption_noPrompt overrides useDefaults d (c c' : Console) res :
  PluginManager.negotiateOption prompt overrides useDefaults true d c
  = (res, c') -> c' = c.
Proof.
  unfold PluginManager.negotiateOption.
  destruct (overrides !! key d); [by intros [= <- <-] |].
  destruct (if useDefaults then default_ d else None); [by intros [= <- <-] |].
  destruct (required d); by intros [= <- <-].
Qed.

Lemma negotiate_fails_noPrompt overrides useDefaults noPrompt ds :
  forall b (c c' : Console) e,
    PluginManager.negotiate prompt overrides useDefaults noPrompt ds b c
    = (inr e, c') ->
    noPrompt = true.
Proof.
  induction ds as [|d0 ds IH]; intros b c c' e; [done |].
  simpl.
  destruct (PluginManager.negotiateOption _ _ _ _ d0 c) as [[[v|]|e0] c1] eqn:Hd0.
  - apply IH.
  - apply IH.
  - intros _. by apply negotiateOption_fails in Hd0 as (-> & _).
Qed.

Lemma negotiate_fails overrides useDefaults ds :
  forall b (c c' : Console) e,
    PluginManager.negotiate prompt overrides useDefaults true ds b c
    = (inr e, c') ->
    c' = c
    /\ exists d, firstUnsettled overrides useDefaults ds d
                 /\ e = ErrMissingOption (key d).
Proof.
  induction ds as [|d0 ds IH]; intros b c c' e; [done |].
  simpl.
  destruct (PluginManager.negotiateOption _ _ _ _ d0 c) as [[o|e0] c1] eqn:Hd0.
  - assert (~ unsettled overrides useDefaults d0) as Hset.
    { intros Hu. by rewrite (negotiateOption_unsettled _ _ _ _ Hu) in Hd0. }
    apply negotiateOption_noPrompt in Hd0 as ->.
    intros Hrest.
    assert (exists b1, PluginManager.negotiate prompt overrides useDefaults
                         true ds b1 c = (inr e, c')) as [b1 Hb1].
    { destruct o; eauto. }
    apply IH in Hb1 as (-> & d & (pre & post & -> & Hu & Hpre) & ->).
    split; [done |]. exists d. split; [| done].
    exists (d0 :: pre), post. split; [done |]. split; [done |].
    intros d1 [<- | Hin]; auto.
  - intros [= <- <-].
    apply negotiateOption_fails in Hd0 as (_ & Hu & -> & ->).
    split; [done |]. exists d0. split; [| done].
    exists [], ds. split; [done |]. split; [done |]. by intros ? [].
Qed.


Lemma SetOptions_fails pm overrides useDefaults noPrompt cands :
  forall w e w',
    PluginManager.SetOptions prompt pm cands overrides useDefaults noPrompt w
    = (Some e, w') ->
    noPrompt = true
    /\ exists h d,
        In h cands
        /\ firstUnsettled overrides useDefaults (declaredOptions h) d
        /\ e = ErrMissingOption (key d).
Proof.
  induction cands as [|h0 cands IH]; intros w e w'; [done |].
  simpl.
  destruct (PluginManager.negotiate _ _ _ _ _ _ _) as [[b|e0] c'] eqn:Hneg.
  - intros Hrest. apply IH in Hrest as (-> & h & d & Hh & Hd & ->).
    split; [done |]. exists h, d. split; [by right | done].
  - intros [= <- <-].
    pose proof (negotiate_fails_noPrompt _ _ _ _ _ _ _ _ Hneg) as ->.
    apply negotiate_fails in Hneg as (_ & d & Hd & ->).
    split; [done |]. exists h0, d. split; [by left | done].
Qed.


End Negotiator.

Section Precedence.

Context {Console : Type}.
Variable prompt : OptionDescriptor -> Console -> string * Console.
Implicit Types d : OptionDescriptor.
Implicit Types b : Bundle.

Lemma negotiate_other_keys overrides useDefaults noPrompt ds (k : string) :
  ~ In k (map key ds) ->
  forall b0 (c c' : Console) b,
    PluginManager.negotiate prompt overrides useDefaults noPrompt ds b0 c
    = (inl b, c') ->
    b !! k = b0 !! k.
Proof.
  induction ds as [|d0 ds IH]; intros Hk b0 c c' b.
  - by intros [= <- <-].
  - simpl in Hk. simpl.
    destruct (PluginManager.negotiateOption _ _ _ _ d0 c) as [[[v|]|e0] c1];
      [| | done]; intros Hrest; apply IH in Hrest; auto.
    rewrite Hrest. apply lookup_insert_ne. auto.
Qed.

Lemma negotiate_override_kept overrides useDefaults noPrompt ds (k v : string) :
  overrides !! k = Some v ->
  forall b0 (c c' : Console) b,
    b0 !! k = Some v ->
    PluginManager.negotiate prompt overrides useDefaults noPrompt ds b0 c
    = (inl b, c') ->
    b !! k = Some v.
Proof.
  intros Hov. induction ds as [|d0 ds IH]; intros b0 c c' b Hb0.
  - by intros [= <- <-].
  - simpl.
    destruct (PluginManager.negotiateOption _ _ _ _ d0 c) as [[[v0|]|e0] c1] eqn:Hd0;
      [| | done]; apply IH; [| done].
    destruct (decide (key d0 = k)) as [<- | Hne].
    + revert Hd0. unfold PluginManager.negotiateOption. rewrite Hov.
      intros [= <- <-]. apply lookup_insert_eq.
    + by rewrite lookup_insert_ne.
Qed.

Lemma negotiate_override overrides useDefaults noPrompt ds d (v : string) :
  In d ds -> overrides !! key d = Some v ->
  forall b0 (c c' : Console) b,
    PluginManager.negotiate prompt overrides useDefaults noPrompt ds b0 c
    = (inl b, c') ->
    b !! key d = Some v.
Proof.
  intros Hin Hov. induction ds as [|d0 ds IH]; [done |].
  intros b0 c c' b. simpl.
  destruct Hin as [-> | Hin].
  - unfold PluginManager.negotiateOption at 1. rewrite Hov.
    apply negotiate_override_kept; [done |]. apply lookup_insert_eq.
  - destruct (PluginManager.negotiateOption _ _ _ _ d0 c) as [[[v0|]|e0] c1];
      [| | done]; by apply IH.
Qed.

Lemma negotiate_binding overrides useDefaults noPrompt ds d :
  NoDup (map key ds) -> In d ds ->
  forall b0 (c c' : Console) b,
    PluginManager.negotiate prompt overrides useDefaults noPrompt ds b0 c
    = (inl b, c') ->
    exists c1 c2,
      match PluginManager.negotiateOption prompt overrides useDefaults
              noPrompt d c1 with
      | (inl (Some v), c3) => b !! key d = Some v /\ c3 = c2
      | (inl None, c3) => b !! key d = b0 !! key d /\ c3 = c2
      | (inr _, _) => False
      end.
Proof.
  induction ds as [|d0 ds IH]; [done |].
  simpl. intros Hnd Hin b0 c c' b. apply NoDup_cons in Hnd as [Hk Hnd].
  destruct (PluginManager.negotiateOption _ _ _ _ d0 c) as [[[v0|]|e0] c1] eqn:Hd0;
    [| | done]; intros Hrest.
  - destruct Hin as [-> | Hin].
    + exists c, c1. rewrite Hd0. split; [| done].
      rewrite (negotiate_other_keys _ _ _ _ _ (fun Hin => Hk (proj2 (list_elem_of_In _ _) Hin))
                 _ _ _ _ Hrest).
      apply lookup_insert_eq.
    + destruct (IH Hnd Hin _ _ _ _ Hrest) as (c2 & c3 & Hd).
      exists c2, c3.
      destruct (PluginManager.negotiateOption _ _ _ _ d c2) as [[[v|]|e] c4];
        [done | | done].
      destruct Hd as [-> ->]. split; [| done].
      apply lookup_insert_ne. intros Heq. apply Hk.
      rewrite Heq. apply list_elem_of_In, in_map, Hin.
  - destruct Hin as [-> | Hin].
    + exists c, c1. rewrite Hd0. split; [| done].
      apply (negotiate_other_keys _ _ _ _ _ (fun Hin => Hk (proj2 (list_elem_of_In _ _) Hin))
               _ _ _ _ Hrest).
    + by apply (IH Hnd Hin _ _ _ _ Hrest).
Qed.

(** C6. For every declared option, the negotiator follows the order
  override, then default (when defaults are enabled), then prompt, then
  absent: an override is used whatever the default and whatever the
  operator would answer; without override a usable default is used and
  nothing is asked; without either a required option is asked for; an
  optional one is left out. The bundle of a successfully negotiated handler
  binds each key accordingly. *)
Theorem option_precedence (overrides : gmap string string)
  (useDefaults noPrompt : bool) (d : OptionDescriptor) (c : Console) :
  (forall v, overrides !! key d = Some v ->
     PluginManager.negotiateOption prompt overrides useDefaults noPrompt d c
     = (inl (Some v), c))
  /\ (forall v, overrides !! key d = None -> useDefaults = true ->
        default_ d = Some v ->
        PluginManager.negotiateOption prompt overrides useDefaults noPrompt d c
        = (inl (Some v), c))
  /\ (overrides !! key d = None ->
      useDefaults = false \/ default_ d = None ->
      required d = true -> noPrompt = false ->
      PluginManager.negotiateOption prompt overrides useDefaults noPrompt d c
      = (inl (Some (prompt d c).1), (prompt d c).2))
  /\ (overrides !! key d = None ->
      useDefaults = false \/ default_ d = None ->
      required d = false ->
      PluginManager.negotiateOption prompt overrides useDefaults noPrompt d c
      = (inl None, c))
  /\ (forall ds c0 c' b,
        PluginManager.negotiate prompt overrides useDefaults noPrompt ds ∅ c0
        = (inl b, c') ->
        In d ds ->
        (forall v, overrides !! key d = Some v -> b !! key d = Some v)
        /\ (NoDup (map key ds) ->
            exists c1 c2,
              PluginManager.negotiateOption prompt overrides useDefaults
                noPrompt d c1
              = (inl (b !! key d), c2))).
Proof.
  unfold PluginManager.negotiateOption.
  split; [| split; [| split; [| split]]].
  - by intros v ->.
  - by intros v -> -> ->.
  - intros -> Hdef -> ->. destruct (prompt d c).
    by destruct Hdef as [-> | ->]; [| destruct useDefaults].
  - intros -> Hdef ->.
    by destruct Hdef as [-> | ->]; [| destruct useDefaults].
  - intros ds c0 c' b Hneg Hin. split.
    + intros v Hov. by eapply negotiate_override.
    + intros Hnd.
      destruct (negotiate_binding _ _ _ _ _ Hnd Hin _ _ _ _ Hneg)
        as (c1 & c2 & Hd).
      exists c1, c2. fold (PluginManager.negotiateOption prompt overrides
                             useDefaults noPrompt d c1).
      destruct (PluginManager.negotiateOption _ _ _ _ d c1) as [[[v|]|e] c3];
        [| | done]; destruct Hd as [-> ->]; [done |].
      by rewrite lookup_empty.
Qed.

End Precedence.


Section MissingOption.

Context {Console D : Type}.
Variable registry : list Handler.
Variable prompt : OptionDescriptor -> Console -> string * Console.
Variable choose : list Handler -> Console -> Z * Console.
Variable runPool :
  Handler -> option Bundle -> string -> string -> Z -> bool ->
  D -> DownloadResult * D.
Variable PathSeparator : ascii.
Variable version : string.
Implicit Types w : World Console D.
Implicit Types s : Proc.State Handler (World Console D).

Local Abbreviation E := (specEnv registry prompt choose runPool).

Lemma negotiate_first overrides useDefaults (d : OptionDescriptor) post pre :
  unsettled overrides useDefaults d ->
  (forall d0, In d0 pre -> ~ unsettled overrides useDefaults d0) ->
  forall (b : Bundle) (c : Console),
    PluginManager.negotiate prompt overrides useDefaults true
      (pre ++ d :: post) b c
    = (inr (ErrMissingOption (key d)), c).
Proof.
  intros Hu. induction pre as [|d0 pre IH]; intros Hpre b c; simpl.
  - by rewrite (negotiateOption_unsettled _ _ _ _ _ Hu).
  - destruct (PluginManager.negotiateOption _ _ _ _ d0 c) as [[[v|]|e0] c1] eqn:Hd0.
    + apply negotiateOption_noPrompt in Hd0 as ->. apply IH.
      intros d1 Hin. apply Hpre. by right.
    + apply negotiateOption_noPrompt in Hd0 as ->. apply IH.
      intros d1 Hin. apply Hpre. by right.
    + apply negotiateOption_fails in Hd0 as (_ & Hu0 & _).
      destruct (Hpre d0); [by left | done].
Qed.



End MissingOption.

(** ** The theorems at work *)

Section Examples.

Import Demo.

Example Set_value_with_equals :
  OptionsFlag.Set_ None "user=a=b" = (None, Some {[ "user" := "a=b" ]})
  /\ OptionsFlag.Set_ alice "user=bob" = (None, Some {[ "user" := "bob" ]})
  /\ OptionsFlag.Set_ alice "user" = (Some ErrInvalidOptionFormat, alice)
  /\ OptionsFlag.Set_ None "" = (Some ErrInvalidOptionFormat, None)
  /\ OptionsFlag.Set_ None "=v" = (None, Some {[ "" := "v" ]}).
Proof. repeat split; vm_compute; reflexivity. Qed.

Example normalizeDir_examples :
  normalizeDir "/" "downloads" = "downloads/"
  /\ normalizeDir "/" "downloads/" = "downloads/"
  /\ normalizeDir "/" "a//" = "a//"
  /\ normalizeDir "/" "" = "/"
  /\ normalizeDir "\" "a/b/" = "a\b\".
Proof. repeat split; reflexivity. Qed.

(** The scenario of the specification: options [{user: required, quality:
  optional, default high}], the operator passes [-o user=alice -d]. *)
Example negotiate_scenario :
  PluginManager.negotiate prompt (OptionsFlag.table alice) true false
    (declaredOptions siteA) ∅ ([], [])
  = (inl {[ "user" := "alice"; "quality" := "high" ]}, ([], [])).
Proof. vm_compute. reflexivity. Qed.

(** The test of the specification: ceiling 1, 5 workers requested. *)
Example effective_concurrency_serial :
  DownloadManager.effectiveConcurrency siteA_serial 5 false = 1%Z
  /\ DownloadManager.effectiveConcurrency siteA_serial 5 true = 5%Z.
Proof. split; reflexivity. Qed.

End Examples.



Lemma panic_ends_process_witness :
  Demo.panicRun.1 = Exit 1
  /\ exists t0 n,
      Proc.trace Demo.panicRun.2
      = t0 ++ panicEnd "boom" Demo.siteB "worker fault"
      /\ Forall (fun e => isFailure e = false) t0
      /\ args Demo.panicFlags !! n = Some "boom"
      /\ runs (Proc.trace Demo.panicRun.2)
         = take (S n) (args Demo.panicFlags).
Proof.
  apply (panic_ends_process (Demo.env [Demo.siteB]) "/" "UNSET"
           Demo.panicFlags (Demo.start ([], []))
           Demo.panicRun.1 Demo.panicRun.2 (Proc.trace Demo.panicRun.2)
           "boom" Demo.siteB "worker fault").
  - vm_compute; reflexivity.
  - reflexivity.
  - vm_compute. repeat (first [left; reflexivity | right]).
Defined.

(** C2, as stated, fails: the run of [boom] panics; the URL [b1] after it
  is never processed. *)
Lemma panic_not_isolated :
  ~ panicIsolated (Demo.env [Demo.siteB]) Demo.panicFirstFlags
      (Proc.trace Demo.panicFirstRun.2).
Proof.
  intros H.
  assert (In (DownloadCall "boom" Demo.siteB (DlPanic "worker fault"))
            (Proc.trace Demo.panicFirstRun.2)) as Hin.
  { vm_compute. repeat (first [left; reflexivity | right]). }
  assert (soleCandidate (Demo.env [Demo.siteB]) Demo.panicFirstFlags 1)
    as Hsole.
  { exists Demo.siteB. reflexivity. }
  specialize (H _ _ _ Hin 1 "b1" Hsole eq_refl).
  vm_compute in H. destruct H as [[=] | []].
Qed.

Lemma selection_failure_ends_process_witness :
  Demo.choiceRun.1 = Exit 1
  /\ ((Demo.sites_a = [] /\ ErrInvalidChoice = ErrNoHandler)
      \/ (2 <= length Demo.sites_a /\ ErrInvalidChoice = ErrInvalidChoice))
  /\ exists t0 n,
      Proc.trace Demo.choiceRun.2
      = t0 ++ selectEnd Demo.sites_a ErrInvalidChoice
      /\ PluginManager.FindHandlers Demo.sites (args Demo.choiceFlags) !! n
         = Some Demo.sites_a
      /\ n < length (args Demo.choiceFlags)
      /\ runs (Proc.trace Demo.choiceRun.2) = take n (args Demo.choiceFlags).
Proof.
  apply (selection_failure_ends_process Demo.sites Demo.prompt Demo.choose
           Demo.runPool "/" "UNSET" Demo.choiceFlags (Demo.start ([], [7%Z]))
           Demo.choiceRun.1 Demo.choiceRun.2 (Proc.trace Demo.choiceRun.2)
           Demo.sites_a ErrInvalidChoice).
  - vm_compute; reflexivity.
  - reflexivity.
  - vm_compute. repeat (first [left; reflexivity | right]).
Defined.

(** C3, as stated, fails: the index chosen for [a1] is out of range; the
  URL [b1] after it has one handler and is never run. *)
Lemma selection_failure_not_isolated :
  ~ selectionFailureIsolated (Demo.env Demo.sites) Demo.choiceFirstFlags
      (Proc.trace Demo.choiceFirstRun.2).
Proof.
  intros H.
  assert (In (SelectPluginCall Demo.sites_a (inr ErrInvalidChoice))
            (Proc.trace Demo.choiceFirstRun.2)) as Hin.
  { vm_compute. repeat (first [left; reflexivity | right]). }
  assert (soleCandidate (Demo.env Demo.sites) Demo.choiceFirstFlags 1)
    as Hsole.
  { exists Demo.siteB. reflexivity. }
  specialize (H _ _ Hin 1 "b1" Hsole eq_refl).
  vm_compute in H. exact H.
Qed.

Lemma negotiation_precedes_downloads_witness :
  exists t1 t2 (s1 : Proc.State Handler (World Demo.Console unit)),
    Proc.trace Demo.goodRun.2
    = Proc.trace (Demo.start ([], [1%Z])) ++ t1 ++ t2
    /\ Proc.trace s1 = Proc.trace (Demo.start ([], [1%Z])) ++ t1
    /\ Forall (fun e => isSelectionOrDownload e = false) t1
    /\ Forall (fun e => isNegotiation e = false) t2
    /\ (forall h e,
          In (SetOptionsCall h (Some e)) (t1 ++ t2) ->
          Demo.goodRun.1 = Exit 1 /\ t2 = []
          /\ exists t0, t1 = t0 ++ negotiationEnd h e)
    /\ (t2 <> [] ->
        negotiations t1
        = map (fun h => (h, None))
            (PluginManager.FindHandlers Demo.sites (args Demo.choiceFirstFlags))
        /\ (forall cands h,
              In cands (PluginManager.FindHandlers Demo.sites
                          (args Demo.choiceFirstFlags)) ->
              In h cands -> resolved (Proc.world s1) h)
        /\ bundles (Proc.world Demo.goodRun.2) = bundles (Proc.world s1)
        /\ (forall u p res,
              In (DownloadCall u p res) t2 -> resolved (Proc.world s1) p)).
Proof.
  apply (negotiation_precedes_downloads Demo.sites Demo.prompt Demo.choose
           Demo.runPool "/" "UNSET" Demo.choiceFirstFlags
           (Demo.start ([], [1%Z])) Demo.goodRun.1 Demo.goodRun.2).
  - apply (bool_decide_unpack _). vm_compute. exact I.
  - vm_compute; reflexivity.
Defined.




(** * Further properties of [cli.go] *)

(** ** Every download run, in detail *)

Section RunDetail.

Context {Plugin W : Type}.
Variable E : Env Plugin W.
Implicit Types s : Proc.State Plugin W.
Implicit Types t : list (Event Plugin).

Lemma main_download_body_run (f : Flags) pm dir urls i h s r s' t u p res :
  main_download E f pm dir urls i h s = (r, s') ->
  Proc.trace s' = Proc.trace s ++ t ->
  In (DownloadCall u p res) t ->
  urls !! i = Some u
  /\ t = urlBlock (1 <? length urls)%nat h p (pluginName E p) u res
  /\ exists w0 w1,
      SelectPlugin E pm h (Proc.world s) = (inl p, w0)
      /\ Download E p dir u (workers f) (zipit f) (override f) w0 = (res, w1).
Proof.
  unfold main_download, startDownloading, startDownloading_deferred,
    Proc.bind, Proc.call, Proc.emit, Proc.logf,
    Proc.fatalf, Proc.index, Proc.exit, Proc.ret, Proc.bind.
  destruct (SelectPlugin E pm h (Proc.world s)) as [[q|err] w] eqn:Hsel; simpl.
  2: { intros [= <- <-]. simpl. rewrite <- !app_assoc. intros Ht.
       apply app_inv_head in Ht as <-. simpl.
       intros [[=] | [[=] | []]]. }
  destruct (urls !! i) as [u0|] eqn:Hu; simpl.
  2: { destruct (1 <? length urls)%nat; simpl; intros [= <- <-]; simpl;
       rewrite <- ?app_assoc; intros Ht; apply app_inv_head in Ht as <-; simpl;
       intros Hin; repeat (destruct Hin as [[=] | Hin]); done. }
  destruct (1 <? length urls)%nat; simpl;
    destruct (Download E q dir u0 _ _ _ w) as [[dls|err|v] w'] eqn:Hdl; simpl;
    intros [= <- <-]; simpl;
    rewrite <- ?app_assoc; intros Ht; apply app_inv_head in Ht as <-; simpl;
    intros Hin;
    repeat (destruct Hin as [Hin | Hin]; [try discriminate Hin |]);
    try done; injection Hin as <- <- <-;
    (split; [done |]); (split; [done |]); by exists w, w'.
Qed.

Lemma download_loop_run (f : Flags) pm dir urls hs :
  forall i s r s' t u p res,
    Proc.forRange (main_download E f pm dir urls) i hs s = (r, s') ->
    Proc.trace s' = Proc.trace s ++ t ->
    In (DownloadCall u p res) t ->
    exists j h w0 w1 w2 ta tb,
      hs !! j = Some h
      /\ urls !! (i + j) = Some u
      /\ SelectPlugin E pm h w0 = (inl p, w1)
      /\ Download E p dir u (workers f) (zipit f) (override f) w1 = (res, w2)
      /\ t = ta ++ urlBlock (1 <? length urls)%nat h p (pluginName E p) u res
               ++ tb.
Proof.
  induction hs as [|h hs IH]; intros i s r s' t u p res.
  - intros [= <- <-] Ht. rewrite <- (app_nil_r (Proc.trace s)) in Ht at 1.
    by apply app_inv_head in Ht as <-.
  - simpl. unfold Proc.bind.
    destruct (main_download E f pm dir urls i h s) as [r1 s1] eqn:Hbody.
    destruct (main_download_body _ _ _ _ _ _ _ _ _ _ Hbody) as (t1 & Ht1 & _).
    destruct r1 as [[]|code].
    + intros Hrest Ht Hin.
      destruct (download_loop _ _ _ _ _ _ _ _ _ _ Hrest) as (t2 & n & Ht2 & _).
      assert (t = t1 ++ t2) as ->.
      { rewrite Ht2, Ht1, <- app_assoc in Ht. by apply app_inv_head in Ht. }
      apply in_app_or in Hin as [Hin1 | Hin2].
      * destruct (main_download_body_run _ _ _ _ _ _ _ _ _ _ _ _ _ Hbody Ht1 Hin1)
          as (Hu & -> & w0 & w1 & Hsel & Hdl).
        exists 0, h, (Proc.world s), w0, w1, [], t2.
        rewrite Nat.add_0_r. done.
      * destruct (IH _ _ _ _ _ _ _ _ Hrest Ht2 Hin2)
          as (j & h' & w0 & w1 & w2 & ta & tb & Hj & Hu & Hsel & Hdl & ->).
        exists (S j), h', w0, w1, w2, (t1 ++ ta), tb.
        split; [done |]. split.
        { by replace (i + S j) with (S i + j) by lia. }
        split; [done |]. split; [done |]. by rewrite <- app_assoc.
    + intros [= <- <-] Ht Hin.
      rewrite Ht1 in Ht. apply app_inv_head in Ht as <-.
      destruct (main_download_body_run _ _ _ _ _ _ _ _ _ _ _ _ _ Hbody Ht1 Hin)
        as (Hu & -> & w0 & w1 & Hsel & Hdl).
      exists 0, h, (Proc.world s), w0, w1, [], [].
      rewrite Nat.add_0_r, app_nil_r. done.
Qed.

End RunDetail.

(** ** How [main] ends *)

Section MainOutcome.

Context {Plugin W : Type}.
Variable E : Env Plugin W.
Variable PathSeparator : ascii.
Variable version : string.
Implicit Types s : Proc.State Plugin W.
Implicit Types t : list (Event Plugin).

Lemma main_early (f : Flags) s :
  (printVersion f = true ->
   main E PathSeparator version f s
   = (Exit 0, Proc.mkState (Proc.world s) (Proc.trace s ++ [Println version])))
  /\ (printVersion f = false -> args f = [] ->
      main E PathSeparator version f s
      = (Exit 0, Proc.mkState (Proc.world s) (Proc.trace s ++ [Usage]))).
Proof.
  unfold main. split.
  - by intros ->.
  - by intros -> ->.
Qed.

Lemma failed_negotiation_phase t :
  Forall (fun e => isSelectionOrDownload e = false) t ->
  Forall (fun x => x.2 = None) (negotiations t) ->
  Forall (fun e => isFailedCall e = false) t.
Proof.
  induction 1 as [|e t He _ IH]; [constructor |].
  destruct e as [| | | |h [err|]| | | | |]; simpl in *; try done;
    intros Hn; try (constructor; [done | auto]).
  - by apply Forall_cons in Hn as [? _].
  - apply Forall_cons in Hn as [_ Hn]. auto.
Qed.

Lemma failed_download_phase t :
  Forall (fun e => isNegotiation e = false) t ->
  Forall (fun e => isFailure e = false) t ->
  Forall (fun e => isFailedCall e = false) t.
Proof.
  induction 1 as [|e t He _ IH]; [constructor |].
  intros Hf. apply Forall_cons in Hf as [Hf1 Hf].
  constructor; [| auto].
  destruct e as [| | | |h [err|]|h [p|err]| |u p [dls|err|v]| |];
    simpl in *; done.
Qed.

Lemma download_loop_returns (f : Flags) pm dir urls hs : forall i s s',
  i <= length urls ->
  Proc.forRange (main_download E f pm dir urls) i hs s = (Ret tt, s') ->
  i + length hs <= length urls.
Proof.
  induction hs as [|h hs IH]; intros i s s' Hi; [simpl; lia |].
  simpl. unfold Proc.bind.
  destruct (main_download E f pm dir urls i h s) as [r1 s1] eqn:Hbody.
  apply main_download_body in Hbody as (t1 & _ & _ & Hcase).
  destruct Hcase as [(-> & _ & (u & Hu & _) & _)
                    | [(-> & _) | [(-> & _) | (-> & _)]]]; [| done ..].
  intros Hrest. apply lookup_lt_Some in Hu. apply IH in Hrest; lia.
Qed.

(** The ways in which [main] ends, with what its trace then holds. *)
Lemma main_outcome (f : Flags) s r s' t :
  main E PathSeparator version f s = (r, s') ->
  Proc.trace s' = Proc.trace s ++ t ->
  (r = Exit 0 /\ (printVersion f = true \/ args f = [])
   /\ Forall (fun e => isFailedCall e = false) t)
  \/ (printVersion f = false /\ args f <> []
      /\ ((r = Ret tt
           /\ Forall (fun e => isFailedCall e = false) t
           /\ negotiations t
              = map (fun h => (h, None))
                  (FindHandlers E (Plugins E) (args f))
           /\ runs t
              = take (length (FindHandlers E (Plugins E) (args f))) (args f)
           /\ length (FindHandlers E (Plugins E) (args f))
              <= length (args f))
          \/ (r = Exit 1 /\ Exists (fun e => isFailedCall e = true) t)
          \/ (r = Exit 2
              /\ Forall (fun e => isFailedCall e = false) t
              /\ length (args f)
                 < length (FindHandlers E (Plugins E) (args f))))).
Proof.
  intros Hmain Ht. apply main_cases in Hmain.
  destruct Hmain as [(-> & Hwhy & e & Ht' & Hn & Hs)
                    | (Hv & Hargs & r1 & s1 & Hneg & Hcase)].
  { left. split; [done |]. split; [done |].
    rewrite Ht in Ht'. apply app_inv_head in Ht' as ->.
    constructor; [| constructor]. by destruct e as [| | | |h [err|]| | | | |]. }
  right. split; [done |]. split; [done |].
  apply negotiate_loop in Hneg as (t1 & Ht1 & Hq1 & Hneg).
  destruct Hcase as [(-> & Hdl) | (-> & Hr & ->)].
  - destruct Hneg as [(_ & Hn1 & _) | [(? & _) | (? & _)]]; [| done | done].
    pose proof Hdl as Hdl'.
    apply download_loop in Hdl as (t2 & n & Ht2 & Hq2 & Hr2 & Hn & _ & Hdl).
    assert (t = t1 ++ t2) as ->.
    { rewrite Ht2, Ht1, <- app_assoc in Ht. by apply app_inv_head in Ht. }
    assert (Forall (fun e => isFailedCall e = false) t1) as Hok1.
    { apply failed_negotiation_phase; [done |]. rewrite Hn1.
      apply Forall_map. by apply Forall_true. }
    destruct Hdl as [(-> & -> & Hf)
                    | [(-> & h & err & t0 & _ & _ & _ & -> & _)
                    | [(-> & u & p & v & t0 & _ & _ & _ & _ & -> & _)
                    | (-> & Hlen & Hf)]]].
    + left. split; [done |].
      split; [apply Forall_app; split; [done | by apply failed_download_phase] |].
      split; [by rewrite negotiations_app, (negotiations_quiet _ Hq2), app_nil_r |].
      split; [by rewrite runs_app, (runs_quiet _ Hq1) |].
      apply download_loop_returns in Hdl'; lia.
    + right; left. split; [done |].
      apply Exists_app. right. apply Exists_app. right. by constructor.
    + right; left. split; [done |].
      apply Exists_app. right. apply Exists_app. right. by constructor.
    + right; right. split; [done |]. split; [| simpl in Hlen; lia].
      apply Forall_app; split; [done | by apply failed_download_phase].
  - assert (t = t1) as ->.
    { rewrite Ht1 in Ht. by apply app_inv_head in Ht. }
    destruct Hneg as [(-> & _)
                     | [(-> & h & e & t0 & _ & _ & _ & -> & _)
                     | (-> & Hlen & Hn1)]]; [done | |].
    + right; left. split; [done |]. apply Exists_app. right. by constructor.
    + right; right. split; [done |]. split; [| simpl in Hlen; lia].
      by apply failed_negotiation_phase.
Qed.


Lemma Exists_not_Forall_failed t :
  Exists (fun e => isFailedCall e = true) t ->
  Forall (fun e => isFailedCall e = false) t -> False.
Proof.
  induction 1 as [e t He | e t _ IH]; intros Hf;
    apply Forall_cons in Hf as [Hf1 Hf]; [congruence | auto].
Qed.

Lemma main_run_detail (f : Flags) s r s' t u p res :
  main E PathSeparator version f s = (r, s') ->
  Proc.trace s' = Proc.trace s ++ t ->
  In (DownloadCall u p res) t ->
  exists j h w0 w1 w2 ta tb,
    FindHandlers E (Plugins E) (args f) !! j = Some h
    /\ args f !! j = Some u
    /\ SelectPlugin E (Plugins E) h w0 = (inl p, w1)
    /\ Download E p (normalizeDir PathSeparator (dldir f)) u
         (workers f) (zipit f) (override f) w1 = (res, w2)
    /\ t = ta ++ urlBlock (1 <? length (args f))%nat h p (pluginName E p) u res
             ++ tb.
Proof.
  intros Hmain Ht Hin. apply main_cases in Hmain.
  destruct Hmain as [(-> & Hwhy & e & Ht' & Hn & Hs)
                    | (Hv & Hargs & r1 & s1 & Hneg & Hcase)].
  { rewrite Ht in Ht'. apply app_inv_head in Ht' as ->.
    destruct Hin as [Heq | []]. by rewrite Heq in Hs. }
  apply negotiate_loop in Hneg as (t1 & Ht1 & Hq1 & _).
  destruct Hcase as [(-> & Hdl) | (-> & Hr & ->)].
  - destruct (download_loop _ _ _ _ _ _ _ _ _ _ Hdl) as (t2 & n & Ht2 & _).
    assert (t = t1 ++ t2) as ->.
    { rewrite Ht2, Ht1, <- app_assoc in Ht. by apply app_inv_head in Ht. }
    apply in_app_or in Hin as [Hin | Hin];
      [by destruct (In_quiet_download _ _ Hq1 Hin) |].
    destruct (download_loop_run _ _ _ _ _ _ _ _ _ _ _ _ _ _ Hdl Ht2 Hin)
      as (j & h & w0 & w1 & w2 & ta & tb & Hj & Hu & Hsel & Hdl' & ->).
    exists j, h, w0, w1, w2, (t1 ++ ta), tb.
    split; [done |]. split; [done |]. split; [done |]. split; [done |].
    by rewrite <- app_assoc.
  - assert (t = t1) as ->.
    { rewrite Ht1 in Ht. by apply app_inv_head in Ht. }
    by destruct (In_quiet_download _ _ Hq1 Hin).
Qed.


(** X2. [main] ends with status 1 exactly when one of its calls failed: a
  [SetOptions] that returned an error, a [SelectPlugin] that returned an
  error, or a [Download] that panicked. An error returned by [Download]
  does not change how [main] ends. *)
Theorem main_exits_1_iff (f : Flags) s r s' t :
  main E PathSeparator version f s = (r, s') ->
  Proc.trace s' = Proc.trace s ++ t ->
  r = Exit 1 <-> Exists (fun e => isFailedCall e = true) t.
Proof.
  intros Hmain Ht.
  destruct (main_outcome f s r s' t Hmain Ht)
    as [(-> & _ & Hf)
       | (_ & _ & [(-> & Hf & _) | [(-> & Hex) | (-> & Hf & _)]])].
  - split; [done | intros Hex; by destruct (Exists_not_Forall_failed _ Hex)].
  - split; [done | intros Hex; by destruct (Exists_not_Forall_failed _ Hex)].
  - done.
  - split; [done | intros Hex; by destruct (Exists_not_Forall_failed _ Hex)].
Qed.

(** X3. When [main] returns, every [SetOptions] call has succeeded, on the
  candidate set of every URL in order; no call has failed; and the download
  runs are those of the URLs in command line order, one per candidate set:
  all the URLs, once each, when [FindHandlers] gave one candidate set per
  URL. *)
Theorem main_returns_after_all_urls (f : Flags) s s' t :
  main E PathSeparator version f s = (Ret tt, s') ->
  Proc.trace s' = Proc.trace s ++ t ->
  Forall (fun e => isFailedCall e = false) t
  /\ negotiations t
     = map (fun h => (h, None)) (FindHandlers E (Plugins E) (args f))
  /\ runs t = take (length (FindHandlers E (Plugins E) (args f))) (args f)
  /\ (length (FindHandlers E (Plugins E) (args f)) = length (args f) ->
      runs t = args f).
Proof.
  intros Hmain Ht.
  destruct (main_outcome f s _ s' t Hmain Ht)
    as [(? & _) | (_ & _ & [(_ & Hf & Hn & Hr & Hlen) | [(? & _) | (? & _)]])];
    try done.
  split; [done |]. split; [done |]. split; [done |].
  intros Heq. rewrite Hr, Heq. apply firstn_all.
Qed.

(** X4. [main] never indexes [urls] out of range when [FindHandlers]
  returns at most one candidate set per URL: the process does not end in a
  runtime panic (status 2). *)
Theorem main_index_in_range (f : Flags) s r s' :
  length (FindHandlers E (Plugins E) (args f)) <= length (args f) ->
  main E PathSeparator version f s = (r, s') ->
  r <> Exit 2.
Proof.
  intros Hlen Hmain.
  assert (exists t, Proc.trace s' = Proc.trace s ++ t) as [t Ht].
  { apply main_phases in Hmain as (t1 & t2 & _ & Ht & _). eauto. }
  destruct (main_outcome f s r s' t Hmain Ht)
    as [(-> & _) | (_ & _ & [(-> & _) | [(-> & _) | (_ & _ & Hlt)]])];
    try done.
  lia.
Qed.

(** X5. Every [Download] call stands in the trace inside the block of one
  loop iteration: the successful selection of its plugin, the "Processing
  URL" line when several URLs were given, the "Starting download" line with
  the plugin name, the start of the reporter, the call, and then, by its
  result, the count of downloads or the error logged, the reporter stopped
  and the line released; after a panic the reporter is stopped and the line
  released before the fatal log. *)
Theorem download_run_block (f : Flags) s r s' t u p res :
  main E PathSeparator version f s = (r, s') ->
  Proc.trace s' = Proc.trace s ++ t ->
  In (DownloadCall u p res) t ->
  exists h ta tb,
    t = ta ++ urlBlock (1 <? length (args f))%nat h p (pluginName E p) u res
          ++ tb.
Proof.
  intros Hmain Ht Hin.
  destruct (main_run_detail f s r s' t u p res Hmain Ht Hin)
    as (j & h & w0 & w1 & w2 & ta & tb & _ & _ & _ & _ & ->).
  by exists h, ta, tb.
Qed.

(** X6. Every [Download] call is made for a URL of the command line, with
  a plugin that [SelectPlugin] returned for the candidate set at the same
  index, on the world that [SelectPlugin] left, with the normalised
  directory (which ends in the path separator) and with the worker count
  and the zip and override flags as parsed. *)
Theorem download_call_alignment (f : Flags) s r s' t u p res :
  main E PathSeparator version f s = (r, s') ->
  Proc.trace s' = Proc.trace s ++ t ->
  In (DownloadCall u p res) t ->
  exists j h w0 w1 w2,
    FindHandlers E (Plugins E) (args f) !! j = Some h
    /\ args f !! j = Some u
    /\ SelectPlugin E (Plugins E) h w0 = (inl p, w1)
    /\ Download E p (normalizeDir PathSeparator (dldir f)) u
         (workers f) (zipit f) (override f) w1 = (res, w2)
    /\ GoStrings.HasSuffix (normalizeDir PathSeparator (dldir f))
         (sepString PathSeparator) = true.
Proof.
  intros Hmain Ht Hin.
  destruct (main_run_detail f s r s' t u p res Hmain Ht Hin)
    as (j & h & w0 & w1 & w2 & ta & tb & Hj & Hu & Hsel & Hdl & _).
  exists j, h, w0, w1, w2. repeat (split; [done |]).
  apply HasSuffix_app.
Qed.

End MainOutcome.

(** ** The order of negotiation and the per-URL log line *)

Section LoopOrder.

Context {Plugin W : Type}.
Variable E : Env Plugin W.
Variable PathSeparator : ascii.
Variable version : string.
Implicit Types s : Proc.State Plugin W.
Implicit Types t : list (Event Plugin).

Lemma negotiate_loop_order (f : Flags) pm urls hs : forall i s r s' t,
  Proc.forRange (main_negotiate E f pm urls) i hs s = (r, s') ->
  Proc.trace s' = Proc.trace s ++ t ->
  exists k, k <= length hs /\ map fst (negotiations t) = take k hs.
Proof.
  induction hs as [|h hs IH]; intros i s r s' t.
  - intros [= <- <-] Ht. rewrite <- (app_nil_r (Proc.trace s)) in Ht at 1.
    apply app_inv_head in Ht as <-. by exists 0.
  - simpl. unfold Proc.bind.
    destruct (main_negotiate E f pm urls i h s) as [r1 s1] eqn:Hbody.
    apply main_negotiate_body in Hbody as (t1 & Ht1 & _ & Hcase).
    destruct Hcase as [(-> & Hn1 & _)
                      | [(-> & e & t0 & w1 & -> & Hn0 & _) | (-> & _ & Hn1)]].
    + intros Hrest Ht.
      destruct (negotiate_loop _ _ _ _ _ _ _ _ _ Hrest) as (t2 & Ht2 & _).
      assert (t = t1 ++ t2) as ->.
      { rewrite Ht2, Ht1, <- app_assoc in Ht. by apply app_inv_head in Ht. }
      destruct (IH _ _ _ _ _ Hrest Ht2) as (k & Hk & Hord).
      exists (S k). split; [simpl; lia |].
      by rewrite negotiations_app, Hn1, map_app, Hord.
    + intros [= <- <-] Ht. rewrite Ht1 in Ht. apply app_inv_head in Ht as <-.
      exists 1. split; [simpl; lia |].
      rewrite negotiations_app, Hn0. simpl. by rewrite take_0.
    + intros [= <- <-] Ht. rewrite Ht1 in Ht. apply app_inv_head in Ht as <-.
      exists 0. split; [lia |]. by rewrite Hn1.
Qed.

(** X7. [SetOptions] is called on the candidate sets in the order of the
  URLs, at most once for each, the empty candidate sets included. *)
Theorem negotiation_in_url_order (f : Flags) s r s' t :
  main E PathSeparator version f s = (r, s') ->
  Proc.trace s' = Proc.trace s ++ t ->
  exists k,
    k <= length (FindHandlers E (Plugins E) (args f))
    /\ map fst (negotiations t)
       = take k (FindHandlers E (Plugins E) (args f)).
Proof.
  intros Hmain Ht. apply main_cases in Hmain.
  destruct Hmain as [(-> & Hwhy & e & Ht' & Hn & Hs)
                    | (Hv & Hargs & r1 & s1 & Hneg & Hcase)].
  { rewrite Ht in Ht'. apply app_inv_head in Ht' as ->.
    exists 0. split; [lia |].
    by rewrite (negotiations_quiet [e]) by (by constructor). }
  destruct (negotiate_loop _ _ _ _ _ _ _ _ _ Hneg) as (t1 & Ht1 & _).
  destruct (negotiate_loop_order _ _ _ _ _ _ _ _ _ Hneg Ht1) as (k & Hk & Hord).
  destruct Hcase as [(-> & Hdl) | (-> & Hr & ->)].
  - apply download_loop in Hdl as (t2 & n & Ht2 & Hq2 & _).
    assert (t = t1 ++ t2) as ->.
    { rewrite Ht2, Ht1, <- app_assoc in Ht. by apply app_inv_head in Ht. }
    exists k. split; [done |].
    by rewrite negotiations_app, (negotiations_quiet _ Hq2), app_nil_r.
  - assert (t = t1) as ->.
    { rewrite Ht1 in Ht. by apply app_inv_head in Ht. }
    by exists k.
Qed.

Lemma main_negotiate_no_processing (f : Flags) pm urls i h s r s' t :
  main_negotiate E f pm urls i h s = (r, s') ->
  Proc.trace s' = Proc.trace s ++ t ->
  Forall (fun e => isProcessingLog e = false) t.
Proof.
  unfold main_negotiate, Proc.bind, Proc.call, Proc.emit, Proc.logf,
    Proc.fatalf, Proc.index, Proc.exit, Proc.ret, Proc.bind.
  destruct (length h =? 0)%nat; [destruct (urls !! i) as [u|] |]; simpl.
  - destruct (SetOptions E pm h _ _ _ _) as [[e|] w]; simpl;
      intros [= <- <-]; simpl; rewrite <- ?app_assoc; intros Ht;
      apply app_inv_head in Ht as <-; by repeat constructor.
  - intros [= <- <-]; simpl. intros Ht.
    apply app_inv_head in Ht as <-. by repeat constructor.
  - destruct (SetOptions E pm h _ _ _ _) as [[e|] w]; simpl;
      intros [= <- <-]; simpl; rewrite <- ?app_assoc; intros Ht;
      apply app_inv_head in Ht as <-; by repeat constructor.
Qed.

Lemma main_download_no_processing (f : Flags) pm dir urls i h s r s' t :
  length urls <= 1 ->
  main_download E f pm dir urls i h s = (r, s') ->
  Proc.trace s' = Proc.trace s ++ t ->
  Forall (fun e => isProcessingLog e = false) t.
Proof.
  intros Hlen. apply Nat.ltb_ge in Hlen.
  unfold main_download, startDownloading, startDownloading_deferred,
    Proc.bind, Proc.call, Proc.emit, Proc.logf,
    Proc.fatalf, Proc.index, Proc.exit, Proc.ret, Proc.bind.
  rewrite Hlen.
  destruct (SelectPlugin E pm h (Proc.world s)) as [[q|err] w]; simpl.
  2: { intros [= <- <-]. simpl. rewrite <- !app_assoc. intros Ht.
       apply app_inv_head in Ht as <-. by repeat constructor. }
  destruct (urls !! i) as [u0|]; simpl.
  2: { intros [= <- <-]; simpl. rewrite <- ?app_assoc. intros Ht.
       apply app_inv_head in Ht as <-. by repeat constructor. }
  destruct (Download E q dir u0 _ _ _ w) as [[dls|err|v] w']; simpl;
    intros [= <- <-]; simpl; rewrite <- ?app_assoc; intros Ht;
    apply app_inv_head in Ht as <-; by repeat constructor.
Qed.

(** X8. The line "Processing URL" is logged only when several URLs are
  given: with a single URL it never appears. *)
Theorem single_url_not_announced (f : Flags) s r s' t :
  length (args f) <= 1 ->
  main E PathSeparator version f s = (r, s') ->
  Proc.trace s' = Proc.trace s ++ t ->
  Forall (fun e => isProcessingLog e = false) t.
Proof.
  intros Hlen Hmain Ht. pose proof Hmain as Hmain'.
  apply main_cases in Hmain.
  destruct Hmain as [(-> & Hwhy & _)
                    | (Hv & Hargs & r1 & s1 & Hneg & Hcase)].
  { destruct (main_early E PathSeparator version f s) as [Hver Huse].
    destruct (printVersion f) eqn:Hv.
    - rewrite (Hver eq_refl) in Hmain'. injection Hmain' as <-.
      simpl in Ht. apply app_inv_head in Ht as <-. by repeat constructor.
    - destruct Hwhy as [? | Hargs]; [done |].
      rewrite (Huse eq_refl Hargs) in Hmain'. injection Hmain' as <-.
      simpl in Ht. apply app_inv_head in Ht as <-. by repeat constructor. }
  assert (forall hs i s0 r0 s0' t0,
             Proc.forRange (main_negotiate E f (Plugins E) (args f)) i hs s0
             = (r0, s0') ->
             Proc.trace s0' = Proc.trace s0 ++ t0 ->
             Forall (fun e => isProcessingLog e = false) t0) as Hnegs.
  { induction hs as [|h hs IH]; intros i s0 r0 s0' t0.
    - intros [= <- <-] Ht0.
      rewrite <- (app_nil_r (Proc.trace s0)) in Ht0 at 1.
      apply app_inv_head in Ht0 as <-. constructor.
    - simpl. unfold Proc.bind.
      destruct (main_negotiate E f (Plugins E) (args f) i h s0) as [ra sa] eqn:Hb.
      destruct (main_negotiate_body _ _ _ _ _ _ _ _ _ Hb) as (ta & Hta & _).
      pose proof (main_negotiate_no_processing _ _ _ _ _ _ _ _ _ Hb Hta) as Hpa.
      destruct ra as [[]|code].
      + intros Hrest Ht0.
        destruct (negotiate_loop _ _ _ _ _ _ _ _ _ Hrest) as (tb & Htb & _).
        assert (t0 = ta ++ tb) as ->.
        { rewrite Htb, Hta, <- app_assoc in Ht0. by apply app_inv_head in Ht0. }
        apply Forall_app. split; [done |]. by eapply IH.
      + intros [= <- <-] Ht0. rewrite Hta in Ht0.
        by apply app_inv_head in Ht0 as <-. }
  assert (forall hs i s0 r0 s0' t0,
             Proc.forRange
               (main_download E f (Plugins E)
                  (normalizeDir PathSeparator (dldir f)) (args f)) i hs s0
             = (r0, s0') ->
             Proc.trace s0' = Proc.trace s0 ++ t0 ->
             Forall (fun e => isProcessingLog e = false) t0) as Hdls.
  { induction hs as [|h hs IH]; intros i s0 r0 s0' t0.
    - intros [= <- <-] Ht0.
      rewrite <- (app_nil_r (Proc.trace s0)) in Ht0 at 1.
      apply app_inv_head in Ht0 as <-. constructor.
    - simpl. unfold Proc.bind.
      destruct (main_download E f (Plugins E) _ (args f) i h s0) as [ra sa] eqn:Hb.
      destruct (main_download_body _ _ _ _ _ _ _ _ _ _ Hb) as (ta & Hta & _).
      pose proof (main_download_no_processing _ _ _ _ _ _ _ _ _ _ Hlen Hb Hta)
        as Hpa.
      destruct ra as [[]|code].
      + intros Hrest Ht0.
        destruct (download_loop _ _ _ _ _ _ _ _ _ _ Hrest) as (tb & n & Htb & _).
        assert (t0 = ta ++ tb) as ->.
        { rewrite Htb, Hta, <- app_assoc in Ht0. by apply app_inv_head in Ht0. }
        apply Forall_app. split; [done |]. by eapply IH.
      + intros [= <- <-] Ht0. rewrite Hta in Ht0.
        by apply app_inv_head in Ht0 as <-. }
  destruct (negotiate_loop _ _ _ _ _ _ _ _ _ Hneg) as (t1 & Ht1 & _).
  pose proof (Hnegs _ _ _ _ _ _ Hneg Ht1) as Hp1.
  destruct Hcase as [(-> & Hdl) | (-> & Hr & ->)].
  - destruct (download_loop _ _ _ _ _ _ _ _ _ _ Hdl) as (t2 & n & Ht2 & _).
    assert (t = t1 ++ t2) as ->.
    { rewrite Ht2, Ht1, <- app_assoc in Ht. by apply app_inv_head in Ht. }
    apply Forall_app. split; [done |]. by eapply Hdls.
  - assert (t = t1) as ->.
    { rewrite Ht1 in Ht. by apply app_inv_head in Ht. }
    done.
Qed.

End LoopOrder.

(** ** More on [OptionsFlag] *)

(** X9. Repeating [-o] for one key: the last value wins. Two successive
  [Set] calls for the same key leave the flag as the second call alone
  does. *)
Theorem Set_last_wins (opt : OptionsFlag.t) (k v1 v2 : string) :
  GoStrings.ContainsByte k "=" = false ->
  OptionsFlag.Set_ (OptionsFlag.Set_ opt (k +:+ "=" +:+ v1)).2
    (k +:+ "=" +:+ v2)
  = OptionsFlag.Set_ opt (k +:+ "=" +:+ v2).
Proof.
  intros Hk.
  repeat first [ rewrite (Set_valid _ k _ Hk) | progress simpl ].
  by rewrite insert_insert_eq.
Qed.

(** X10. [-o] options for different keys can be given in any order: the
  two [Set] calls commute. *)
Theorem Set_commute (opt : OptionsFlag.t) (k1 v1 k2 v2 : string) :
  GoStrings.ContainsByte k1 "=" = false ->
  GoStrings.ContainsByte k2 "=" = false ->
  k1 <> k2 ->
  OptionsFlag.Set_ (OptionsFlag.Set_ opt (k1 +:+ "=" +:+ v1)).2
    (k2 +:+ "=" +:+ v2)
  = OptionsFlag.Set_ (OptionsFlag.Set_ opt (k2 +:+ "=" +:+ v2)).2
      (k1 +:+ "=" +:+ v1).
Proof.
  intros Hk1 Hk2 Hne.
  repeat first [ rewrite (Set_valid _ k1 _ Hk1)
               | rewrite (Set_valid _ k2 _ Hk2)
               | progress simpl ].
  by rewrite insert_insert_ne.
Qed.

(** X11. [Set] never removes a binding and adds at most one. A call that
  fails leaves the flag as it is, a [nil] map included; a call that
  succeeds leaves an allocated map. *)
Theorem Set_keeps_bindings (opt : OptionsFlag.t) (v : string) :
  (forall k, is_Some (OptionsFlag.table opt !! k) ->
             is_Some (OptionsFlag.table (OptionsFlag.Set_ opt v).2 !! k))
  /\ size (OptionsFlag.table opt)
     <= size (OptionsFlag.table (OptionsFlag.Set_ opt v).2)
     <= S (size (OptionsFlag.table opt))
  /\ ((OptionsFlag.Set_ opt v).1 <> None -> (OptionsFlag.Set_ opt v).2 = opt)
  /\ ((OptionsFlag.Set_ opt v).1 = None ->
      (OptionsFlag.Set_ opt v).2 <> None).
Proof.
  destruct (GoStrings.ContainsByte v "=") eqn:Hc.
  - destruct (ContainsByte_cut _ _ Hc) as (k & val & -> & Hk).
    change (String "=" val) with ("=" +:+ val).
    rewrite (Set_valid opt k val Hk). simpl.
    split; [| split; [| split]]; try done.
    + intros k' Hk'. destruct (decide (k = k')) as [<- | Hne].
      * rewrite lookup_insert_eq. eauto.
      * by rewrite lookup_insert_ne.
    + rewrite map_size_insert.
      destruct (OptionsFlag.table opt !! k); simpl; lia.
  - rewrite (Set_invalid opt v Hc). simpl.
    split; [done |]. split; [lia |]. done.
Qed.

Section OptionsStringFacts.

Variable quote : string -> string.

Lemma Join_cons_length (e : string) (rest : list string) (sep : string) :
  String.length e <= String.length (OptionsString.Join (e :: rest) sep).
Proof.
  destruct rest as [|e' rest]; simpl; [lia |].
  rewrite length_app_string. lia.
Qed.

Lemma entry_length (kv : string * string) :
  2 <= String.length (OptionsString.entry quote kv).
Proof.
  unfold OptionsString.entry. rewrite !length_app_string. simpl. lia.
Qed.

(** X12. [String] returns the empty string exactly for a flag without
  options (a [nil] or an empty map), in whatever order the bindings are
  visited; otherwise it returns the bindings between braces. *)
Theorem String_empty_iff (opt : OptionsFlag.t)
  (visited : list (string * string)) :
  visited ≡ₚ map_to_list (OptionsFlag.table opt) ->
  (OptionsString.String_ quote visited = EmptyString
   <-> OptionsFlag.table opt = ∅)
  /\ (OptionsFlag.table opt <> ∅ ->
      OptionsString.String_ quote visited
      = "{" +:+ OptionsString.Join
                  (map (OptionsString.entry quote) visited) ", " +:+ "}").
Proof.
  intros Hperm.
  assert (visited = [] <-> OptionsFlag.table opt = ∅) as Hnil.
  { rewrite <- map_to_list_empty_iff. split.
    - intros ->. symmetry in Hperm. by apply Permutation_nil_r in Hperm.
    - intros Hm. rewrite Hm in Hperm. by apply Permutation_nil_r in Hperm. }
  destruct visited as [|kv visited].
  - split; [split; [intros _; by apply Hnil | done] |].
    intros Hne. destruct Hne. by apply Hnil.
  - assert (OptionsString.Join
              (map (OptionsString.entry quote) (kv :: visited)) ", "
            <> EmptyString) as Hcontent.
    { intros Heq.
      pose proof (Join_cons_length (OptionsString.entry quote kv)
                    (map (OptionsString.entry quote) visited) ", ") as Hlen.
      pose proof (entry_length kv) as Hkv.
      change (OptionsString.entry quote kv
                :: map (OptionsString.entry quote) visited)
        with (map (OptionsString.entry quote) (kv :: visited)) in Hlen.
      rewrite Heq in Hlen. simpl in Hlen. lia. }
    unfold OptionsString.String_.
    apply String.eqb_neq in Hcontent. rewrite Hcontent. simpl negb. cbv iota.
    split; [| done].
    split; [done |]. intros Hm. by apply Hnil in Hm.
Qed.

End OptionsStringFacts.

(** ** More on the download directory *)

Section DirectoryFacts.

Import GoStrings.

Lemma substring_split (s : string) : forall n,
  n <= String.length s ->
  substring 0 n s +:+ substring n (String.length s - n) s = s.
Proof.
  induction s as [|c s IH]; intros n Hn.
  - simpl in Hn. by replace n with 0 by lia.
  - destruct n as [|n].
    + simpl. by rewrite substring_all.
    + simpl in Hn. simpl. rewrite string_app_cons, IH; [done | lia].
Qed.

Lemma HasSuffix_split (s suffix : string) :
  HasSuffix s suffix = true ->
  slice_to (String.length s - String.length suffix) s +:+ suffix = s.
Proof.
  unfold HasSuffix, slice_to, slice_from. intros H.
  apply andb_true_iff in H as [Hlen Heq].
  apply Nat.leb_le in Hlen. apply String.eqb_eq in Heq.
  rewrite <- Heq at 2.
  apply substring_split. lia.
Qed.

Lemma ReplaceAllByte_length (s : string) (old new : ascii) :
  String.length (ReplaceAllByte s old new) = String.length s.
Proof. induction s as [|c s IH]; simpl; [done | by rewrite IH]. Qed.

Lemma FromSlash_length (sep : ascii) (s : string) :
  String.length (FromSlash sep s) = String.length s.
Proof.
  unfold FromSlash. destruct (Ascii.eqb sep "/"); [done |].
  apply ReplaceAllByte_length.
Qed.

(** X13. The normalisation appends the separator only when it is missing:
  a path that already ends in the separator comes out as [FromSlash] made
  it, any other path gets one separator appended. The result is as long as
  the path or one byte longer and, on a system whose separator is not the
  slash, holds no slash. *)
Theorem normalizeDir_appends_when_missing (PathSeparator : ascii)
  (s : string) :
  normalizeDir PathSeparator s
  = (if HasSuffix (FromSlash PathSeparator s) (sepString PathSeparator)
     then FromSlash PathSeparator s
     else FromSlash PathSeparator s +:+ sepString PathSeparator)
  /\ String.length s <= String.length (normalizeDir PathSeparator s)
     <= S (String.length s)
  /\ (Ascii.eqb PathSeparator "/" = false ->
      ContainsByte (normalizeDir PathSeparator s) "/" = false).
Proof.
  assert (normalizeDir PathSeparator s
          = (if HasSuffix (FromSlash PathSeparator s) (sepString PathSeparator)
             then FromSlash PathSeparator s
             else FromSlash PathSeparator s +:+ sepString PathSeparator))
    as Hcases.
  { unfold normalizeDir, TrimSuffix.
    destruct (HasSuffix _ _) eqn:Hsuf; [| done].
    by apply HasSuffix_split. }
  split; [done |]. split.
  - rewrite Hcases.
    destruct (HasSuffix _ _); rewrite ?length_app_string, FromSlash_length;
      simpl; lia.
  - intros Hsep. unfold normalizeDir. rewrite ContainsByte_app.
    apply orb_false_iff. split.
    + apply ContainsByte_TrimSuffix. by apply FromSlash_clean.
    + simpl. by rewrite Hsep.
Qed.

(** X14. The directories that the normalisation leaves unchanged are
  exactly those that end in the path separator and, on a system whose
  separator is not the slash, hold no slash. *)
Theorem normalizeDir_fixed_iff (PathSeparator : ascii) (s : string) :
  normalizeDir PathSeparator s = s
  <-> HasSuffix s (sepString PathSeparator) = true
      /\ (Ascii.eqb PathSeparator "/" = false -> ContainsByte s "/" = false).
Proof.
  split.
  - intros Hfix. split.
    + rewrite <- Hfix. apply HasSuffix_app.
    + intros Hsep. rewrite <- Hfix. unfold normalizeDir.
      rewrite ContainsByte_app. apply orb_false_iff. split.
      * apply ContainsByte_TrimSuffix. by apply FromSlash_clean.
      * simpl. by rewrite Hsep.
  - intros [Hsuf Hslash]. unfold normalizeDir.
    rewrite (FromSlash_fixed _ _ Hslash).
    unfold TrimSuffix. rewrite Hsuf. by apply HasSuffix_split.
Qed.

End DirectoryFacts.

(** ** The reporter and the reserved line *)

Section Balance.

Context {Plugin W : Type}.
Variable E : Env Plugin W.
Variable PathSeparator : ascii.
Variable version : string.
Implicit Types s : Proc.State Plugin W.
Implicit Types t : list (Event Plugin).

Lemma countIf_app (P : Event Plugin -> bool) t1 t2 :
  countIf P (t1 ++ t2) = countIf P t1 + countIf P t2.
Proof. unfold countIf. by rewrite List.filter_app, length_app. Qed.

Lemma balanced_app t1 t2 : balanced t1 -> balanced t2 -> balanced (t1 ++ t2).
Proof.
  unfold balanced. intros (H1 & H2 & H3) (H1' & H2' & H3').
  rewrite !countIf_app, runs_app, length_app. lia.
Qed.

Lemma balanced_quiet t :
  Forall (fun e => isSelectionOrDownload e = false) t -> balanced t.
Proof.
  intros Hq. unfold balanced. rewrite (runs_quiet _ Hq). simpl.
  induction Hq as [|e t He _ IH]; [done |].
  destruct e; simpl in *; done.
Qed.

Lemma main_download_body_balanced (f : Flags) pm dir urls i h s r s' t :
  main_download E f pm dir urls i h s = (r, s') ->
  Proc.trace s' = Proc.trace s ++ t ->
  balanced t.
Proof.
  unfold main_download, startDownloading, startDownloading_deferred,
    Proc.bind, Proc.call, Proc.emit, Proc.logf,
    Proc.fatalf, Proc.index, Proc.exit, Proc.ret, Proc.bind.
  destruct (SelectPlugin E pm h (Proc.world s)) as [[q|err] w]; simpl.
  2: { intros [= <- <-]. simpl. rewrite <- !app_assoc. intros Ht.
       by apply app_inv_head in Ht as <-. }
  destruct (urls !! i) as [u0|]; simpl.
  2: { destruct (1 <? length urls)%nat; simpl; intros [= <- <-]; simpl;
       rewrite <- ?app_assoc; intros Ht; by apply app_inv_head in Ht as <-. }
  destruct (1 <? length urls)%nat; simpl;
    destruct (Download E q dir u0 _ _ _ w) as [[dls|err|v] w']; simpl;
    intros [= <- <-]; simpl;
    rewrite <- ?app_assoc; intros Ht; by apply app_inv_head in Ht as <-.
Qed.

Lemma download_loop_balanced (f : Flags) pm dir urls hs : forall i s r s' t,
  Proc.forRange (main_download E f pm dir urls) i hs s = (r, s') ->
  Proc.trace s' = Proc.trace s ++ t ->
  balanced t.
Proof.
  induction hs as [|h hs IH]; intros i s r s' t.
  - intros [= <- <-] Ht. rewrite <- (app_nil_r (Proc.trace s)) in Ht at 1.
    by apply app_inv_head in Ht as <-.
  - simpl. unfold Proc.bind.
    destruct (main_download E f pm dir urls i h s) as [r1 s1] eqn:Hbody.
    destruct (main_download_body _ _ _ _ _ _ _ _ _ _ Hbody) as (t1 & Ht1 & _).
    pose proof (main_download_body_balanced _ _ _ _ _ _ _ _ _ _ Hbody Ht1) as Hb1.
    destruct r1 as [[]|code].
    + intros Hrest Ht.
      destruct (download_loop _ _ _ _ _ _ _ _ _ _ Hrest) as (t2 & n & Ht2 & _).
      assert (t = t1 ++ t2) as ->.
      { rewrite Ht2, Ht1, <- app_assoc in Ht. by apply app_inv_head in Ht. }
      apply balanced_app; [done |]. by eapply IH.
    + intros [= <- <-] Ht. rewrite Ht1 in Ht.
      by apply app_inv_head in Ht as <-.
Qed.

(** X15. However [main] ends, every download run has started the
  reporter once, stopped it once and released the reserved line once, and
  nothing else has: the reporter is stopped and the line released also
  after a [Download] error and after a panic. *)
Theorem reporter_always_stopped (f : Flags) s r s' t :
  main E PathSeparator version f s = (r, s') ->
  Proc.trace s' = Proc.trace s ++ t ->
  balanced t.
Proof.
  intros Hmain Ht. apply main_cases in Hmain.
  destruct Hmain as [(-> & Hwhy & e & Ht' & Hn & Hs)
                    | (Hv & Hargs & r1 & s1 & Hneg & Hcase)].
  { rewrite Ht in Ht'. apply app_inv_head in Ht' as ->.
    apply balanced_quiet. by constructor. }
  apply negotiate_loop in Hneg as (t1 & Ht1 & Hq1 & _).
  destruct Hcase as [(-> & Hdl) | (-> & Hr & ->)].
  - destruct (download_loop _ _ _ _ _ _ _ _ _ _ Hdl) as (t2 & n & Ht2 & _).
    assert (t = t1 ++ t2) as ->.
    { rewrite Ht2, Ht1, <- app_assoc in Ht. by apply app_inv_head in Ht. }
    apply balanced_app; [by apply balanced_quiet |].
    by eapply download_loop_balanced.
  - assert (t = t1) as ->.
    { rewrite Ht1 in Ht. by apply app_inv_head in Ht. }
    by apply balanced_quiet.
Qed.

End Balance.

(** X16. [Set] never binds a key that contains ['=']: whatever the value
  given, such a key keeps the binding it had, or none. The empty key can be
  bound. *)
Theorem Set_never_binds_key_with_equals (opt : OptionsFlag.t) (v : string) :
  (forall k, GoStrings.ContainsByte k "=" = true ->
             OptionsFlag.table (OptionsFlag.Set_ opt v).2 !! k
             = OptionsFlag.table opt !! k)
  /\ (forall val,
        OptionsFlag.Set_ opt ("=" +:+ val)
        = (None, Some (<[EmptyString := val]> (OptionsFlag.table opt)))).
Proof.
  split.
  - intros k Hk. destruct (GoStrings.ContainsByte v "=") eqn:Hc.
    + destruct (ContainsByte_cut _ _ Hc) as (k0 & val & -> & Hk0).
      change (String "=" val) with ("=" +:+ val).
      rewrite (Set_valid opt k0 val Hk0). simpl.
      apply lookup_insert_ne. intros ->. congruence.
    + by rewrite (Set_invalid opt v Hc).
  - intros val. by apply (Set_valid opt EmptyString val).
Qed.

(** ** The further properties at work *)


Lemma main_exits_1_iff_witness :
  Demo.choiceRun.1 = Exit 1
  <-> Exists (fun e => isFailedCall e = true) (Proc.trace Demo.choiceRun.2).
Proof.
  apply (main_exits_1_iff (Demo.env Demo.sites) "/" "UNSET" Demo.choiceFlags
           (Demo.start ([], [7%Z])) Demo.choiceRun.1 Demo.choiceRun.2
           (Proc.trace Demo.choiceRun.2)).
  - vm_compute; reflexivity.
  - reflexivity.
Defined.

Lemma main_returns_after_all_urls_witness :
  Forall (fun e => isFailedCall e = false) (Proc.trace Demo.goodRun.2)
  /\ negotiations (Proc.trace Demo.goodRun.2)
     = map (fun h => (h, None))
         (FindHandlers (Demo.env Demo.sites) (Plugins (Demo.env Demo.sites))
            (args Demo.choiceFirstFlags))
  /\ runs (Proc.trace Demo.goodRun.2)
     = take (length (FindHandlers (Demo.env Demo.sites)
                       (Plugins (Demo.env Demo.sites))
                       (args Demo.choiceFirstFlags)))
         (args Demo.choiceFirstFlags)
  /\ (length (FindHandlers (Demo.env Demo.sites)
                (Plugins (Demo.env Demo.sites)) (args Demo.choiceFirstFlags))
      = length (args Demo.choiceFirstFlags) ->
      runs (Proc.trace Demo.goodRun.2) = args Demo.choiceFirstFlags).
Proof.
  apply (main_returns_after_all_urls (Demo.env Demo.sites) "/" "UNSET"
           Demo.choiceFirstFlags (Demo.start ([], [1%Z])) Demo.goodRun.2
           (Proc.trace Demo.goodRun.2)).
  - vm_compute; reflexivity.
  - reflexivity.
Defined.

Lemma main_index_in_range_witness : Demo.goodRun.1 <> Exit 2.
Proof.
  apply (main_index_in_range (Demo.env Demo.sites) "/" "UNSET"
           Demo.choiceFirstFlags (Demo.start ([], [1%Z]))
           Demo.goodRun.1 Demo.goodRun.2).
  - vm_compute. lia.
  - vm_compute; reflexivity.
Defined.

Lemma download_run_block_witness :
  exists h ta tb,
    Proc.trace Demo.panicRun.2
    = ta ++ urlBlock (1 <? length (args Demo.panicFlags))%nat h Demo.siteB
              (pluginName (Demo.env [Demo.siteB]) Demo.siteB) "boom"
              (DlPanic "worker fault")
         ++ tb.
Proof.
  apply (download_run_block (Demo.env [Demo.siteB]) "/" "UNSET"
           Demo.panicFlags (Demo.start ([], []))
           Demo.panicRun.1 Demo.panicRun.2 (Proc.trace Demo.panicRun.2)
           "boom" Demo.siteB (DlPanic "worker fault")).
  - vm_compute; reflexivity.
  - reflexivity.
  - vm_compute. repeat (first [left; reflexivity | right]).
Defined.

Lemma download_call_alignment_witness :
  exists j h w0 w1 w2,
    FindHandlers (Demo.env Demo.sites) (Plugins (Demo.env Demo.sites))
      (args Demo.choiceFirstFlags) !! j = Some h
    /\ args Demo.choiceFirstFlags !! j = Some "a1"
    /\ SelectPlugin (Demo.env Demo.sites) (Plugins (Demo.env Demo.sites))
         h w0 = (inl Demo.siteA_serial, w1)
    /\ Download (Demo.env Demo.sites) Demo.siteA_serial
         (normalizeDir "/" (dldir Demo.choiceFirstFlags)) "a1"
         (workers Demo.choiceFirstFlags) (zipit Demo.choiceFirstFlags)
         (override Demo.choiceFirstFlags) w1
       = (DlOk ["downloads/a1"], w2)
    /\ GoStrings.HasSuffix (normalizeDir "/" (dldir Demo.choiceFirstFlags))
         (sepString "/") = true.
Proof.
  apply (download_call_alignment (Demo.env Demo.sites) "/" "UNSET"
           Demo.choiceFirstFlags (Demo.start ([], [1%Z]))
           Demo.goodRun.1 Demo.goodRun.2 (Proc.trace Demo.goodRun.2)
           "a1" Demo.siteA_serial (DlOk ["downloads/a1"])).
  - vm_compute; reflexivity.
  - reflexivity.
  - vm_compute. repeat (first [left; reflexivity | right]).
Defined.

Lemma negotiation_in_url_order_witness :
  exists k,
    k <= length (FindHandlers (Demo.env Demo.sites)
                   (Plugins (Demo.env Demo.sites)) (args Demo.choiceFlags))
    /\ map fst (negotiations (Proc.trace Demo.choiceRun.2))
       = take k (FindHandlers (Demo.env Demo.sites)
                   (Plugins (Demo.env Demo.sites)) (args Demo.choiceFlags)).
Proof.
  apply (negotiation_in_url_order (Demo.env Demo.sites) "/" "UNSET"
           Demo.choiceFlags (Demo.start ([], [7%Z]))
           Demo.choiceRun.1 Demo.choiceRun.2 (Proc.trace Demo.choiceRun.2)).
  - vm_compute; reflexivity.
  - reflexivity.
Defined.

Lemma single_url_not_announced_witness :
  Forall (fun e => isProcessingLog e = false)
    (Proc.trace DemoMore.singleRun.2).
Proof.
  apply (single_url_not_announced (Demo.env [Demo.siteB]) "/" "UNSET"
           DemoMore.singleFlags (Demo.start ([], []))
           DemoMore.singleRun.1 DemoMore.singleRun.2
           (Proc.trace DemoMore.singleRun.2)).
  - vm_compute. lia.
  - vm_compute; reflexivity.
  - reflexivity.
Defined.

Lemma Set_last_wins_witness :
  OptionsFlag.Set_ (OptionsFlag.Set_ None ("user" +:+ "=" +:+ "alice")).2
    ("user" +:+ "=" +:+ "bob")
  = OptionsFlag.Set_ None ("user" +:+ "=" +:+ "bob").
Proof. apply (Set_last_wins None "user" "alice" "bob"). reflexivity. Defined.

Lemma Set_commute_witness :
  OptionsFlag.Set_ (OptionsFlag.Set_ None ("user" +:+ "=" +:+ "alice")).2
    ("quality" +:+ "=" +:+ "low")
  = OptionsFlag.Set_ (OptionsFlag.Set_ None ("quality" +:+ "=" +:+ "low")).2
      ("user" +:+ "=" +:+ "alice").
Proof.
  apply (Set_commute None "user" "alice" "quality" "low").
  - reflexivity.
  - reflexivity.
  - discriminate.
Defined.

Lemma String_empty_iff_witness :
  (OptionsString.String_ DemoMore.quoted [("user", "alice")] = EmptyString
   <-> OptionsFlag.table Demo.alice = ∅)
  /\ (OptionsFlag.table Demo.alice <> ∅ ->
      OptionsString.String_ DemoMore.quoted [("user", "alice")]
      = "{" +:+ OptionsString.Join
                  (map (OptionsString.entry DemoMore.quoted)
                     [("user", "alice")]) ", " +:+ "}").
Proof.
  apply (String_empty_iff DemoMore.quoted Demo.alice [("user", "alice")]).
  vm_compute. reflexivity.
Defined.

Lemma reporter_always_stopped_witness :
  balanced (Proc.trace Demo.panicRun.2).
Proof.
  apply (reporter_always_stopped (Demo.env [Demo.siteB]) "/" "UNSET"
           Demo.panicFlags (Demo.start ([], []))
           Demo.panicRun.1 Demo.panicRun.2 (Proc.trace Demo.panicRun.2)).
  - vm_compute; reflexivity.
  - reflexivity.
Defined.

(** * Early exits, unclaimed URLs and missing options *)

(** ** Stopping before the loops *)

Section EarlyExit.

Context {Plugin W : Type}.
Variable E : Env Plugin W.
Variable PathSeparator : ascii.
Variable version : string.
Implicit Types s : Proc.State Plugin W.




End EarlyExit.


(** ** A URL that no handler claims *)

Section UnclaimedURL.

Context {Console D : Type}.
Variable registry : list Handler.
Variable prompt : OptionDescriptor -> Console -> string * Console.
Variable choose : list Handler -> Console -> Z * Console.
Variable runPool :
  Handler -> option Bundle -> string -> string -> Z -> bool ->
  D -> DownloadResult * D.
Variable PathSeparator : ascii.
Variable version : string.
Implicit Types w : World Console D.
Implicit Types s : Proc.State Handler (World Console D).
Implicit Types t : list (Event Handler).

Local Abbreviation E := (specEnv registry prompt choose runPool).


End UnclaimedURL.


(** ** The first unsettled option *)

Section FirstUnsettled.

Variable overrides : gmap string string.
Variable useDefaults : bool.
Implicit Types d : OptionDescriptor.
Implicit Types ds : list OptionDescriptor.




Lemma firstUnsettled_In ds d :
  firstUnsettled overrides useDefaults ds d ->
  In d ds /\ unsettled overrides useDefaults d.
Proof.
  intros (pre & post & -> & Hu & _). split; [| done].
  apply in_or_app. right. by left.
Qed.

End FirstUnsettled.

Section FirstMissingOption.

Context {Console D : Type}.
Variable registry : list Handler.
Variable prompt : OptionDescriptor -> Console -> string * Console.
Variable choose : list Handler -> Console -> Z * Console.
Variable runPool :
  Handler -> option Bundle -> string -> string -> Z -> bool ->
  D -> DownloadResult * D.
Variable PathSeparator : ascii.
Variable version : string.
Implicit Types w : World Console D.
Implicit Types s : Proc.State Handler (World Console D).
Implicit Types t : list (Event Handler).

Local Abbreviation E := (specEnv registry prompt choose runPool).





End FirstMissingOption.

